(** * GekkoMath: fixed-point scalar [Unit] and three-component vector [Vec3]

    A shallow embedding of [include/gekko_math.h] (namespace [Gekko::Math]).
    Machine integers are integers of [Z] with the two's-complement
    wrap-around of their width written out at every operation; integer
    division is C++'s truncating division ([Z.quot]); a [throw] is the
    [Throw] outcome of the [result] type. *)

From Stdlib Require Import ZArith Lia String Bool.

Local Open Scope Z_scope.

(** ** Fixed-width signed integers *)

(** [int32_t]: values, narrowing and the arithmetic the header uses on it. *)
Module I32.

Definition min_signed : Z := - 2 ^ 31.
Definition max_signed : Z := 2 ^ 31 - 1.

Definition in_range (z : Z) : Prop := min_signed <= z <= max_signed.

(** [static_cast<int32_t>]: reduction modulo 2^32 into the signed range. *)
Definition wrap (z : Z) : Z := (z + 2 ^ 31) mod 2 ^ 32 - 2 ^ 31.

Definition add (a b : Z) : Z := wrap (a + b).
Definition sub (a b : Z) : Z := wrap (a - b).
Definition mul (a b : Z) : Z := wrap (a * b).
Definition neg (a : Z) : Z := wrap (- a).
(** [a / b] on [int], for [b <> 0]. *)
Definition div (a b : Z) : Z := wrap (Z.quot a b).
(** [std::abs(int)]. *)
Definition abs (a : Z) : Z := if a <? 0 then neg a else a.

End I32.

(** [int64_t], the widened intermediate of [operator*] and [operator/]. *)
Module I64.

Definition min_signed : Z := - 2 ^ 63.
Definition max_signed : Z := 2 ^ 63 - 1.

Definition in_range (z : Z) : Prop := min_signed <= z <= max_signed.

Definition wrap (z : Z) : Z := (z + 2 ^ 63) mod 2 ^ 64 - 2 ^ 63.

Definition add (a b : Z) : Z := wrap (a + b).
Definition mul (a b : Z) : Z := wrap (a * b).
Definition neg (a : Z) : Z := wrap (- a).
Definition div (a b : Z) : Z := wrap (Z.quot a b).

End I64.

(** ** Exceptions *)

(** Both failure paths of the header throw [std::runtime_error]; the two
    are told apart by their [what()] string. *)
Inductive exception : Type :=
| runtime_error (what : string).

Inductive result (A : Type) : Type :=
| Ok (a : A)
| Throw (e : exception).

Arguments Ok {A} a.
Arguments Throw {A} e.

Definition bind {A B : Type} (r : result A) (k : A -> result B) : result B :=
  match r with
  | Ok a => k a
  | Throw e => Throw e
  end.

Notation "x <- r ;; k" := (bind r (fun x => k))
  (at level 61, r at next level, right associativity).

(** A member function that may assign to [*this]: from the object before
    the call to the object after it, together with the outcome. *)
Definition method (S A : Type) : Type := S -> S * result A.

Definition DivisionByZero : exception := runtime_error "Division by zero".
Definition SqrtOfNegative : exception := runtime_error "sqrt of negative number".

(** ** [struct Unit] *)
Module Unit.

Record t : Type := Build { _raw : Z }.

Definition ONE : Z := 32768.   (* 0x8000 *)
Definition HALF : Z := 16384.  (* 0x4000 *)

(** [Unit(int32_t val) : _raw(val * ONE)], the converting constructor. *)
Definition of_int (val : Z) : t := {| _raw := I32.mul val ONE |}.

(** [static Unit From(int32_t val)]. *)
Definition From (val : Z) : t := {| _raw := val |}.

(** Ordering against another [Unit]. *)
Definition gt (a other : t) : bool := _raw a >? _raw other.
Definition ge (a other : t) : bool := _raw a >=? _raw other.
Definition lt (a other : t) : bool := _raw a <? _raw other.
Definition le (a other : t) : bool := _raw a <=? _raw other.

(** Ordering against a [const int32_t&]. *)
Definition gt_int (a : t) (other : Z) : bool := _raw a >? other.
Definition ge_int (a : t) (other : Z) : bool := _raw a >=? other.
Definition lt_int (a : t) (other : Z) : bool := _raw a <? other.
Definition le_int (a : t) (other : Z) : bool := _raw a <=? other.

Definition neg (a : t) : t := From (I32.neg (_raw a)).

Definition add (a other : t) : t := From (I32.add (_raw a) (_raw other)).

Definition add_assign (other : t) : method t unit :=
  fun self => ({| _raw := I32.add (_raw self) (_raw other) |}, Ok tt).

Definition sub (a other : t) : t := From (I32.sub (_raw a) (_raw other)).

Definition sub_assign (other : t) : method t unit :=
  fun self => ({| _raw := I32.sub (_raw self) (_raw other) |}, Ok tt).

Definition div (a other : t) : result t :=
  if _raw other =? 0 then Throw DivisionByZero
  else
    let num := I64.mul (_raw a) ONE in
    let adjust := I32.div (I32.abs (_raw other)) 2 in
    Ok (From (I32.wrap
                (I64.div
                   (I64.add num (if _raw other >? 0 then adjust else I64.neg adjust))
                   (_raw other)))).

Definition mul (a other : t) : t :=
  let result := I64.mul (_raw a) (_raw other) in
  From (I32.wrap (I64.div (I64.add result (I32.div ONE 2)) ONE)).

Definition eq (a other : t) : bool := _raw a =? _raw other.
Definition ne (a other : t) : bool := negb (_raw a =? _raw other).

(** [a == n] with [n] an [int32_t]: [operator==] has no integer overload,
    so the call reaches [operator==(const Unit&)] through [Unit(int32_t)]. *)
Definition eq_int (a : t) (n : Z) : bool := eq a (of_int n).

(** [*this = *this * other]. *)
Definition mul_assign (other : t) : method t unit :=
  fun self => (mul self other, Ok tt).

(** [*this = *this / other]: the right-hand side is evaluated first, and
    the assignment only happens when it did not throw. *)
Definition div_assign (other : t) : method t unit :=
  fun self =>
    match div self other with
    | Ok v => (v, Ok tt)
    | Throw e => (self, Throw e)
    end.

(** The initial guess [u._raw >= Unit::ONE ? u : Unit::ONE].  The second
    and third operands have types [const Unit] and [const int32_t]; the
    only implicit conversion between them is the converting constructor
    [Unit(int32_t)], so the third operand is [Unit(Unit::ONE)]. *)
Definition SqrtNewton_guess (u : t) : t :=
  if _raw u >=? ONE then u else of_int ONE.

Definition MAX_ITER : nat := 10.

(** The [for] loop of [SqrtNewton] with [n] iterations left, started at
    [x]; the second component counts the Newton updates evaluated. *)
Fixpoint SqrtNewton_loop (n : nat) (u x : t) (steps : nat) : result (t * nat) :=
  match n with
  | O => Ok (x, steps)
  | S n' =>
      q <- div u x ;;
      next <- div (add x q) (of_int 2) ;;
      if eq next x then Ok (x, S steps)
      else SqrtNewton_loop n' u next (S steps)
  end.

(** [SqrtNewton] together with the number of Newton updates it evaluated. *)
Definition SqrtNewton_run (u : t) : result (t * nat) :=
  if _raw u <? 0 then Throw SqrtOfNegative
  else if _raw u =? 0 then Ok (of_int 0, O)
  else SqrtNewton_loop MAX_ITER u (SqrtNewton_guess u) O.

Definition SqrtNewton (u : t) : result t :=
  r <- SqrtNewton_run u ;; Ok (fst r).

End Unit.

Definition Min (a b : Unit.t) : Unit.t := if Unit.lt a b then a else b.
Definition Max (a b : Unit.t) : Unit.t := if Unit.gt a b then a else b.

(** ** [struct Vec3] *)
Module Vec3.

Record t : Type := Build { x : Unit.t; y : Unit.t; z : Unit.t }.

Definition Dot (v other : t) : Unit.t :=
  Unit.add (Unit.add (Unit.mul (x v) (x other)) (Unit.mul (y v) (y other)))
           (Unit.mul (z v) (z other)).

Definition add (v other : t) : t :=
  Build (Unit.add (x v) (x other)) (Unit.add (y v) (y other)) (Unit.add (z v) (z other)).

Definition add_unit (v : t) (other : Unit.t) : t :=
  Build (Unit.add (x v) other) (Unit.add (y v) other) (Unit.add (z v) other).

Definition sub (v other : t) : t :=
  Build (Unit.sub (x v) (x other)) (Unit.sub (y v) (y other)) (Unit.sub (z v) (z other)).

Definition sub_unit (v : t) (other : Unit.t) : t :=
  Build (Unit.sub (x v) other) (Unit.sub (y v) other) (Unit.sub (z v) other).

(** The three quotients are the arguments of one constructor call; C++
    leaves their order open, and every one that throws throws the same
    exception, so the left-to-right order taken here is no restriction. *)
Definition div (v other : t) : result t :=
  qx <- Unit.div (x v) (x other) ;;
  qy <- Unit.div (y v) (y other) ;;
  qz <- Unit.div (z v) (z other) ;;
  Ok (Build qx qy qz).

Definition div_unit (v : t) (other : Unit.t) : result t :=
  qx <- Unit.div (x v) other ;;
  qy <- Unit.div (y v) other ;;
  qz <- Unit.div (z v) other ;;
  Ok (Build qx qy qz).

Definition mul (v other : t) : t :=
  Build (Unit.mul (x v) (x other)) (Unit.mul (y v) (y other)) (Unit.mul (z v) (z other)).

Definition mul_unit (v : t) (other : Unit.t) : t :=
  Build (Unit.mul (x v) other) (Unit.mul (y v) other) (Unit.mul (z v) other).

Definition eq (v other : t) : bool :=
  Unit.eq (x v) (x other) && Unit.eq (y v) (y other) && Unit.eq (z v) (z other).

Definition ne (v other : t) : bool := negb (eq v other).

(** The compound forms are all [*this = *this op other]. *)
Definition assign_total (f : t -> t) : method t unit :=
  fun self => (f self, Ok tt).

Definition assign_partial (f : t -> result t) : method t unit :=
  fun self =>
    match f self with
    | Ok v => (v, Ok tt)
    | Throw e => (self, Throw e)
    end.

Definition add_assign (other : t) : method t unit := assign_total (fun self => add self other).
Definition add_assign_unit (other : Unit.t) : method t unit := assign_total (fun self => add_unit self other).
Definition sub_assign (other : t) : method t unit := assign_total (fun self => sub self other).
Definition sub_assign_unit (other : Unit.t) : method t unit := assign_total (fun self => sub_unit self other).
Definition div_assign (other : t) : method t unit := assign_partial (fun self => div self other).
Definition div_assign_unit (other : Unit.t) : method t unit := assign_partial (fun self => div_unit self other).
Definition mul_assign (other : t) : method t unit := assign_total (fun self => mul self other).
Definition mul_assign_unit (other : Unit.t) : method t unit := assign_total (fun self => mul_unit self other).

(** [Vec3(a, b, c)] written with integer literals: each goes through
    [Unit(int32_t)]. *)
Definition of_ints (a b c : Z) : t := Build (Unit.of_int a) (Unit.of_int b) (Unit.of_int c).

End Vec3.


(** ** Vocabulary of the statements *)

(** Some component of the divisor vector has raw value zero. *)
Definition has_zero_component (w : Vec3.t) : Prop :=
  Unit._raw (Vec3.x w) = 0 \/ Unit._raw (Vec3.y w) = 0 \/ Unit._raw (Vec3.z w) = 0.

(** Every component holds a 32-bit raw value. *)
Definition Vec3_in_range (v : Vec3.t) : Prop :=
  I32.in_range (Unit._raw (Vec3.x v))
  /\ I32.in_range (Unit._raw (Vec3.y v))
  /\ I32.in_range (Unit._raw (Vec3.z v)).

(** The raw value of one product of [Dot], in unbounded integers. *)
Definition mul_raw (ra rb : Z) : Z :=
  I32.wrap (Z.quot (ra * rb + Unit.ONE / 2) Unit.ONE).

(** The raw value of a quotient in the words of the specification: the
    bias is half the absolute value of the divisor's raw value, added for
    a positive divisor and subtracted for a negative one, and the
    truncating quotient is narrowed to 32 bits. *)
Definition div_raw_spec (ra rb : Z) : Z :=
  let bias := Z.quot (Z.abs rb) 2 in
  I32.wrap (Z.quot (ra * Unit.ONE + (if rb >? 0 then bias else - bias)) rb).

(** * Properties *)

(** ** Narrowing and the absence of 64-bit overflow *)

Lemma I32_wrap_id (z : Z) : I32.in_range z -> I32.wrap z = z.
Proof.
  unfold I32.in_range, I32.min_signed, I32.max_signed, I32.wrap; intros H.
  rewrite Z.mod_small; lia.
Qed.

Lemma I32_wrap_range (z : Z) : I32.in_range (I32.wrap z).
Proof.
  unfold I32.in_range, I32.min_signed, I32.max_signed, I32.wrap.
  pose proof (Z.mod_pos_bound (z + 2 ^ 31) (2 ^ 32) ltac:(lia)); lia.
Qed.

Lemma I64_wrap_id (z : Z) : I64.in_range z -> I64.wrap z = z.
Proof.
  unfold I64.in_range, I64.min_signed, I64.max_signed, I64.wrap; intros H.
  rewrite Z.mod_small; lia.
Qed.

(** A 64-bit step whose exact value is within range does not wrap. *)
Ltac fits_int64 :=
  apply I64_wrap_id;
  unfold I64.in_range, I64.min_signed, I64.max_signed, Unit.ONE; lia.

(** Narrowing only sees its argument modulo 2^32. *)
Lemma I32_wrap_congr (a b k : Z) : a = b + k * 2 ^ 32 -> I32.wrap a = I32.wrap b.
Proof.
  intros ->; unfold I32.wrap.
  replace (b + k * 2 ^ 32 + 2 ^ 31) with (b + 2 ^ 31 + k * 2 ^ 32) by ring.
  now rewrite Z.mod_add by lia.
Qed.

Lemma I32_wrap_decomp (z : Z) : exists k, I32.wrap z = z + k * 2 ^ 32.
Proof.
  exists (- ((z + 2 ^ 31) / 2 ^ 32)); unfold I32.wrap.
  rewrite Z.mod_eq by lia; ring.
Qed.

Lemma quot_abs_le (n d : Z) : d <> 0 -> Z.abs (Z.quot n d) <= Z.abs n.
Proof.
  intros Hd; rewrite <- Z.quot_abs by exact Hd.
  apply Z.quot_le_upper_bound; nia.
Qed.

(** [std::abs] on [int32_t] is the absolute value except at [INT32_MIN],
    where the negation does not fit and wraps back to [INT32_MIN]. *)
Lemma I32_abs_spec (r : Z) :
  I32.in_range r -> r <> I32.min_signed -> I32.abs r = Z.abs r.
Proof.
  unfold I32.abs, I32.neg, I32.in_range, I32.min_signed, I32.max_signed.
  intros Hr Hmin; destruct (Z.ltb_spec r 0).
  - rewrite I32_wrap_id; [lia | unfold I32.in_range, I32.min_signed, I32.max_signed; lia].
  - lia.
Qed.

Lemma I32_abs_min_signed : I32.abs I32.min_signed = I32.min_signed.
Proof. reflexivity. Qed.

Lemma I32_abs_range (r : Z) : I32.in_range r -> I32.in_range (I32.abs r).
Proof.
  unfold I32.abs, I32.neg; intros Hr.
  destruct (r <? 0); [apply I32_wrap_range | exact Hr].
Qed.

(** The rounding term [adjust] of [operator/]. *)
Lemma adjust_exact (r : Z) :
  I32.in_range r -> I32.div (I32.abs r) 2 = Z.quot (I32.abs r) 2.
Proof.
  intros Hr; unfold I32.div; apply I32_wrap_id.
  pose proof (I32_abs_range r Hr) as Ha.
  pose proof (Z.quot_rem' (I32.abs r) 2) as Hq.
  pose proof (Z.rem_bound_abs (I32.abs r) 2 ltac:(lia)) as Hm.
  revert Ha Hq Hm.
  generalize (Z.quot (I32.abs r) 2) (Z.rem (I32.abs r) 2) (I32.abs r).
  unfold I32.in_range, I32.min_signed, I32.max_signed; lia.
Qed.

Lemma adjust_bounds (r : Z) :
  I32.in_range r -> - 2 ^ 30 <= Z.quot (I32.abs r) 2 <= 2 ^ 30.
Proof.
  intros Hr.
  pose proof (I32_abs_range r Hr) as Ha.
  pose proof (Z.quot_rem' (I32.abs r) 2) as Hq.
  pose proof (Z.rem_bound_abs (I32.abs r) 2 ltac:(lia)) as Hm.
  revert Ha Hq Hm.
  generalize (Z.quot (I32.abs r) 2) (Z.rem (I32.abs r) 2) (I32.abs r).
  unfold I32.in_range, I32.min_signed, I32.max_signed; lia.
Qed.

Lemma I64_div_exact (n d : Z) :
  - 2 ^ 63 < n < 2 ^ 63 -> d <> 0 -> I64.div n d = Z.quot n d.
Proof.
  intros Hn Hd; unfold I64.div; apply I64_wrap_id.
  pose proof (quot_abs_le n d Hd) as Hq; revert Hq.
  generalize (Z.quot n d).
  unfold I64.in_range, I64.min_signed, I64.max_signed; lia.
Qed.

(** [operator/] on operands with a non-zero divisor: none of the 64-bit
    steps overflows, so the quotient is the one of unbounded integers and
    only the final narrowing reduces. *)
Lemma div_exact (a b : Unit.t) :
  I32.in_range (Unit._raw a) -> I32.in_range (Unit._raw b) -> Unit._raw b <> 0 ->
  Unit.div a b =
  Ok (Unit.From
        (I32.wrap
           (Z.quot
              (Unit._raw a * Unit.ONE +
               (if Unit._raw b >? 0 then Z.quot (I32.abs (Unit._raw b)) 2
                else - Z.quot (I32.abs (Unit._raw b)) 2))
              (Unit._raw b)))).
Proof.
  destruct a as [ra], b as [rb]; cbn [Unit._raw]; intros Ha Hb Hnz.
  unfold Unit.div; cbn [Unit._raw].
  rewrite (proj2 (Z.eqb_neq rb 0) Hnz).
  rewrite (adjust_exact rb Hb).
  pose proof (adjust_bounds rb Hb) as Hadj.
  set (adj := Z.quot (I32.abs rb) 2) in *.
  unfold I32.in_range, I32.min_signed, I32.max_signed in Ha, Hb.
  assert (Hnum : I64.mul ra Unit.ONE = ra * Unit.ONE).
  { unfold I64.mul; fits_int64. }
  assert (Hneg : I64.neg adj = - adj).
  { unfold I64.neg; fits_int64. }
  rewrite Hnum, Hneg.
  assert (Hsum : forall c, - 2 ^ 30 <= c <= 2 ^ 30 ->
                           I64.add (ra * Unit.ONE) c = ra * Unit.ONE + c).
  { intros c Hc; unfold I64.add; fits_int64. }
  destruct (rb >? 0).
  - rewrite Hsum by lia. rewrite I64_div_exact; [reflexivity | unfold Unit.ONE; lia | exact Hnz].
  - rewrite Hsum by lia. rewrite I64_div_exact; [reflexivity | unfold Unit.ONE; lia | exact Hnz].
Qed.

(** [operator*]: likewise the 64-bit product, the bias and the division
    by [ONE] are exact. *)
Lemma mul_exact (a b : Unit.t) :
  I32.in_range (Unit._raw a) -> I32.in_range (Unit._raw b) ->
  Unit.mul a b =
  Unit.From (I32.wrap (Z.quot (Unit._raw a * Unit._raw b + Z.quot Unit.ONE 2) Unit.ONE)).
Proof.
  destruct a as [ra], b as [rb]; cbn [Unit._raw]; intros Ha Hb.
  unfold Unit.mul; cbn [Unit._raw].
  unfold I32.in_range, I32.min_signed, I32.max_signed in Ha, Hb.
  assert (Hp : - 2 ^ 62 + 2 ^ 31 <= ra * rb <= 2 ^ 62) by nia.
  assert (Hmul : I64.mul ra rb = ra * rb).
  { unfold I64.mul; fits_int64. }
  assert (Hhalf : I32.div Unit.ONE 2 = Z.quot Unit.ONE 2) by reflexivity.
  rewrite Hmul, Hhalf.
  change (Z.quot Unit.ONE 2) with 16384.
  assert (Hadd : I64.add (ra * rb) 16384 = ra * rb + 16384).
  { unfold I64.add; fits_int64. }
  rewrite Hadd, I64_div_exact; [reflexivity | lia | unfold Unit.ONE; lia].
Qed.

(** ** The initial guess of [SqrtNewton] *)

(** Whatever the input, the guess is at least [ONE] in raw terms. *)
Lemma SqrtNewton_guess_at_least_ONE (u : Unit.t) :
  Unit.ONE <= Unit._raw (Unit.SqrtNewton_guess u).
Proof.
  unfold Unit.SqrtNewton_guess.
  destruct (Z.geb_spec (Unit._raw u) Unit.ONE) as [H | H]; [exact H | ].
  vm_compute; discriminate.
Qed.

Lemma SqrtNewton_guess_above_ONE (u : Unit.t) :
  Unit.ONE <= Unit._raw u -> Unit.SqrtNewton_guess u = u.
Proof.
  intros H; unfold Unit.SqrtNewton_guess.
  destruct (Z.geb_spec (Unit._raw u) Unit.ONE); [reflexivity | lia].
Qed.

(** C1. For an input strictly between 0 and [ONE] in raw terms the
    initial guess of [SqrtNewton] is [Unit(Unit::ONE)]: the integer
    constant goes through the scaling constructor, so the guess has raw
    value [ONE * ONE] = 2^30 (32768.0 in logical units), not raw value
    [ONE] (1.0), and it is not the larger of the input and [From ONE]. *)
Theorem SqrtNewton_guess_below_ONE (u : Unit.t) :
  0 < Unit._raw u < Unit.ONE ->
  Unit.SqrtNewton_guess u = Unit.From (Unit.ONE * Unit.ONE)
  /\ Unit._raw (Unit.SqrtNewton_guess u) <> Unit.ONE
  /\ Unit.SqrtNewton_guess u <> Max u (Unit.From Unit.ONE).
Proof.
  intros [Hpos Hlt].
  assert (Hg : Unit.SqrtNewton_guess u = Unit.From (Unit.ONE * Unit.ONE)).
  { unfold Unit.SqrtNewton_guess.
    destruct (Z.geb_spec (Unit._raw u) Unit.ONE); [lia | reflexivity]. }
  rewrite Hg; repeat split.
  - vm_compute; discriminate.
  - unfold Max, Unit.gt; cbn [Unit._raw Unit.From].
    destruct (Z.gtb_spec (Unit._raw u) Unit.ONE); [lia | ].
    vm_compute; discriminate.
Qed.

(** At one half (raw 16384) the guess is raw 2^30, and the ten Newton
    updates end at raw 1048747, about 32.005, far from the root 0.7071. *)
Lemma SqrtNewton_guess_below_ONE_at_half :
  Unit.SqrtNewton_guess (Unit.From 16384) = Unit.From 1073741824
  /\ Unit.SqrtNewton_run (Unit.From 16384) = Ok (Unit.From 1048747, 10%nat).
Proof.
  split.
  - apply (SqrtNewton_guess_below_ONE (Unit.From 16384)); vm_compute; split; reflexivity.
  - vm_compute; reflexivity.
Defined.

(** ** Division and multiplication *)

(** C2, amended. For scalars [a], [b] whose divisor has a raw value other
    than 0 and [INT32_MIN], the raw value of [a / b] is the 32-bit
    narrowing of the truncating quotient of [raw a * ONE + bias] by
    [raw b], where the bias is half the absolute value of [raw b], added
    for a positive divisor and subtracted for a negative one, so that it
    has the divisor's sign. *)
Theorem div_rounding_formula (a b : Unit.t) :
  I32.in_range (Unit._raw a) -> I32.in_range (Unit._raw b) ->
  Unit._raw b <> 0 -> Unit._raw b <> I32.min_signed ->
  let half := Z.quot (Z.abs (Unit._raw b)) 2 in
  let bias := if Unit._raw b >? 0 then half else - half in
  Unit.div a b = Ok (Unit.From (div_raw_spec (Unit._raw a) (Unit._raw b)))
  /\ Unit.div a b
     = Ok (Unit.From (I32.wrap (Z.quot (Unit._raw a * Unit.ONE + bias) (Unit._raw b))))
  /\ 0 <= Z.sgn (Unit._raw b) * bias.
Proof.
  intros Ha Hb Hnz Hmin half bias.
  assert (E : Unit.div a b
              = Ok (Unit.From (I32.wrap (Z.quot (Unit._raw a * Unit.ONE + bias)
                                                (Unit._raw b))))).
  { rewrite (div_exact a b Ha Hb Hnz), (I32_abs_spec _ Hb Hmin); reflexivity. }
  split; [exact E | split; [exact E | ]].
  subst bias half.
  pose proof (Z.quot_pos (Z.abs (Unit._raw b)) 2 ltac:(lia) ltac:(lia)) as Hq.
  destruct (Z.gtb_spec (Unit._raw b) 0); nia.
Qed.

(** At the divisor [INT32_MIN] the negation inside [std::abs] does not fit
    in 32 bits; with wrap-around [adjust] is then -2^30. *)
Lemma div_by_min_signed :
  Unit.div (Unit.of_int 1) (Unit.of_int (-65536)) = Ok (Unit.From (-1)).
Proof. vm_compute; reflexivity. Qed.

(** C2 as first stated does not hold for the divisor [Unit(-65536)], whose
    raw value is [INT32_MIN]: [Unit(1) / Unit(-65536)] has raw value -1,
    where the stated formula gives 0. *)
Lemma div_rounding_formula_fails_at_min_signed :
  I32.in_range (Unit._raw (Unit.of_int 1))
  /\ I32.in_range (Unit._raw (Unit.of_int (-65536)))
  /\ Unit._raw (Unit.of_int (-65536)) <> 0
  /\ Unit.div (Unit.of_int 1) (Unit.of_int (-65536)) = Ok (Unit.From (-1))
  /\ div_raw_spec (Unit._raw (Unit.of_int 1)) (Unit._raw (Unit.of_int (-65536))) = 0
  /\ Unit.div (Unit.of_int 1) (Unit.of_int (-65536))
     <> Ok (Unit.From (div_raw_spec (Unit._raw (Unit.of_int 1))
                                    (Unit._raw (Unit.of_int (-65536))))).
Proof.
  split; [vm_compute; split; discriminate | ].
  split; [vm_compute; split; discriminate | ].
  split; [vm_compute; discriminate | ].
  split; [vm_compute; reflexivity | ].
  split; [vm_compute; reflexivity | ].
  vm_compute; discriminate.
Qed.

Lemma div_rounding_formula_five_halves :
  Unit.div (Unit.of_int 5) (Unit.of_int 2) = Ok (Unit.From 81920)
  /\ Unit.div (Unit.of_int 5) (Unit.of_int (-2)) = Ok (Unit.From (-81919)).
Proof.
  destruct (div_rounding_formula (Unit.of_int 5) (Unit.of_int 2)) as (_ & H1 & _);
    try (vm_compute; try split; discriminate).
  destruct (div_rounding_formula (Unit.of_int 5) (Unit.of_int (-2))) as (_ & H2 & _);
    try (vm_compute; try split; discriminate).
  split; [exact H1 | exact H2].
Defined.

(** C3. For scalars [a], [b], the raw value of [a * b] is the 32-bit
    narrowing of the truncating quotient of [raw a * raw b + ONE / 2] by
    [ONE]; the bias [ONE / 2] is added whatever the sign of the product.
    The quotient is therefore never below the round-half-up value, a tie
    goes to the larger neighbour for either sign, and a negative biased
    product that is not a multiple of [ONE] lands one above round-half-up. *)
Theorem mul_rounding_formula (a b : Unit.t) :
  I32.in_range (Unit._raw a) -> I32.in_range (Unit._raw b) ->
  let p := Unit._raw a * Unit._raw b in
  let q := Z.quot (p + Unit.ONE / 2) Unit.ONE in
  Unit.mul a b = Unit.From (I32.wrap q)
  /\ (p + Unit.ONE / 2) / Unit.ONE <= q
  /\ (forall k, p = k * Unit.ONE + Unit.ONE / 2 -> q = k + 1)
  /\ (p + Unit.ONE / 2 < 0 -> (p + Unit.ONE / 2) mod Unit.ONE <> 0 ->
      q = (p + Unit.ONE / 2) / Unit.ONE + 1).
Proof.
  intros Ha Hb p q.
  split; [exact (mul_exact a b Ha Hb) | ].
  subst q; generalize p; clear; intros p.
  change (Unit.ONE / 2) with 16384; unfold Unit.ONE.
  repeat split; intros; Z.to_euclidean_division_equations; lia.
Qed.

Lemma mul_rounding_formula_examples :
  Unit.mul (Unit.of_int 3) (Unit.of_int 2) = Unit.of_int 6
  /\ Unit.mul (Unit.of_int (-3)) (Unit.of_int 2) = Unit.From (-196607)
  /\ Unit.mul (Unit.From (-3)) (Unit.From 16384) = Unit.From (-1).
Proof.
  split; [ | split].
  - apply (mul_rounding_formula (Unit.of_int 3) (Unit.of_int 2));
      vm_compute; split; discriminate.
  - apply (mul_rounding_formula (Unit.of_int (-3)) (Unit.of_int 2));
      vm_compute; split; discriminate.
  - apply (mul_rounding_formula (Unit.From (-3)) (Unit.From 16384));
      vm_compute; split; discriminate.
Defined.

(** ** Failure paths *)

Lemma div_zero (a b : Unit.t) : Unit._raw b = 0 -> Unit.div a b = Throw DivisionByZero.
Proof. intros H; unfold Unit.div; rewrite H; reflexivity. Qed.

Lemma div_throw_inv (a b : Unit.t) (e : exception) :
  Unit.div a b = Throw e -> Unit._raw b = 0 /\ e = DivisionByZero.
Proof.
  unfold Unit.div; destruct (Z.eqb_spec (Unit._raw b) 0) as [H | H]; intros E.
  - split; [exact H | congruence].
  - discriminate E.
Qed.

Lemma div_nonzero_ok (a b : Unit.t) :
  Unit._raw b <> 0 -> exists q, Unit.div a b = Ok q.
Proof.
  intros H; unfold Unit.div.
  rewrite (proj2 (Z.eqb_neq _ _) H); eexists; reflexivity.
Qed.

Lemma Vec3_div_zero (v w : Vec3.t) :
  has_zero_component w -> Vec3.div v w = Throw DivisionByZero.
Proof.
  intros H; unfold Vec3.div.
  destruct (Z.eq_dec (Unit._raw (Vec3.x w)) 0) as [Hx | Hx];
    [rewrite (div_zero _ _ Hx); reflexivity | ].
  destruct (div_nonzero_ok (Vec3.x v) _ Hx) as [qx ->]; cbn [bind].
  destruct (Z.eq_dec (Unit._raw (Vec3.y w)) 0) as [Hy | Hy];
    [rewrite (div_zero _ _ Hy); reflexivity | ].
  destruct (div_nonzero_ok (Vec3.y v) _ Hy) as [qy ->]; cbn [bind].
  destruct H as [H | [H | H]]; try contradiction.
  rewrite (div_zero _ _ H); reflexivity.
Qed.

Lemma Vec3_div_throw_inv (v w : Vec3.t) (e : exception) :
  Vec3.div v w = Throw e -> has_zero_component w /\ e = DivisionByZero.
Proof.
  unfold Vec3.div, has_zero_component.
  destruct (Unit.div (Vec3.x v) (Vec3.x w)) as [qx | ex] eqn:Ex; cbn [bind].
  - destruct (Unit.div (Vec3.y v) (Vec3.y w)) as [qy | ey] eqn:Ey; cbn [bind].
    + destruct (Unit.div (Vec3.z v) (Vec3.z w)) as [qz | ez] eqn:Ez; cbn [bind].
      * discriminate.
      * intros E; injection E as <-. destruct (div_throw_inv _ _ _ Ez); auto.
    + intros E; injection E as <-. destruct (div_throw_inv _ _ _ Ey); auto.
  - intros E; injection E as <-. destruct (div_throw_inv _ _ _ Ex); auto.
Qed.

Lemma Vec3_div_unit_zero (v : Vec3.t) (s : Unit.t) :
  Unit._raw s = 0 -> Vec3.div_unit v s = Throw DivisionByZero.
Proof. intros H; unfold Vec3.div_unit; rewrite (div_zero _ _ H); reflexivity. Qed.

Lemma Vec3_div_unit_throw_inv (v : Vec3.t) (s : Unit.t) (e : exception) :
  Vec3.div_unit v s = Throw e -> Unit._raw s = 0 /\ e = DivisionByZero.
Proof.
  unfold Vec3.div_unit.
  destruct (Unit.div (Vec3.x v) s) as [qx | ex] eqn:Ex; cbn [bind].
  - destruct (Unit.div (Vec3.y v) s) as [qy | ey] eqn:Ey; cbn [bind].
    + destruct (Unit.div (Vec3.z v) s) as [qz | ez] eqn:Ez; cbn [bind].
      * discriminate.
      * intros E; injection E as <-. exact (div_throw_inv _ _ _ Ez).
    + intros E; injection E as <-. exact (div_throw_inv _ _ _ Ey).
  - intros E; injection E as <-. exact (div_throw_inv _ _ _ Ex).
Qed.

(** C4. Scalar division by a divisor with raw value zero throws
    [DivisionByZero] for every dividend; vector division by a vector with
    a zero-raw component, or by a zero-raw scalar, throws the same; and a
    division that throws has thrown exactly that, for exactly that reason. *)
Theorem division_by_zero (a b : Unit.t) (v w : Vec3.t) :
  (Unit._raw b = 0 -> Unit.div a b = Throw DivisionByZero)
  /\ (has_zero_component w -> Vec3.div v w = Throw DivisionByZero)
  /\ (Unit._raw b = 0 -> Vec3.div_unit v b = Throw DivisionByZero)
  /\ (forall e, Unit.div a b = Throw e -> Unit._raw b = 0 /\ e = DivisionByZero)
  /\ (forall e, Vec3.div v w = Throw e -> has_zero_component w /\ e = DivisionByZero)
  /\ (forall e, Vec3.div_unit v b = Throw e -> Unit._raw b = 0 /\ e = DivisionByZero).
Proof.
  split; [apply div_zero | ].
  split; [apply Vec3_div_zero | ].
  split; [apply Vec3_div_unit_zero | ].
  split; [intros e; apply div_throw_inv | ].
  split; [intros e; apply Vec3_div_throw_inv | ].
  intros e; apply Vec3_div_unit_throw_inv.
Qed.

Lemma division_by_zero_five_by_zero :
  Unit.div (Unit.of_int 5) (Unit.of_int 0) = Throw DivisionByZero
  /\ Vec3.div (Vec3.of_ints 1 2 3) (Vec3.of_ints 4 0 6) = Throw DivisionByZero
  /\ Vec3.div_unit (Vec3.of_ints 1 2 3) (Unit.of_int 0) = Throw DivisionByZero.
Proof.
  pose proof (division_by_zero (Unit.of_int 5) (Unit.of_int 0)
                (Vec3.of_ints 1 2 3) (Vec3.of_ints 4 0 6)) as (H1 & H2 & H3 & _).
  split; [ | split].
  - apply H1; reflexivity.
  - apply H2; right; left; reflexivity.
  - apply H3; reflexivity.
Defined.

(** The two exceptions can be told apart. *)
Lemma SqrtOfNegative_not_DivisionByZero : SqrtOfNegative <> DivisionByZero.
Proof. discriminate. Qed.

(** C5. [SqrtNewton] of a scalar with negative raw value throws the
    domain error ("sqrt of negative number"); [SqrtNewton] of the zero-raw
    scalar returns the zero scalar and evaluates no Newton update. *)
Theorem SqrtNewton_domain (u : Unit.t) :
  (Unit._raw u < 0 -> Unit.SqrtNewton u = Throw SqrtOfNegative)
  /\ (Unit._raw u = 0 ->
      Unit.SqrtNewton u = Ok (Unit.From 0)
      /\ Unit.SqrtNewton_run u = Ok (Unit.From 0, 0%nat)).
Proof.
  unfold Unit.SqrtNewton, Unit.SqrtNewton_run; split.
  - intros H. destruct (Z.ltb_spec (Unit._raw u) 0); [reflexivity | lia].
  - intros H; rewrite H; split; reflexivity.
Qed.

Lemma SqrtNewton_domain_minus_one_and_zero :
  Unit.SqrtNewton (Unit.of_int (-1)) = Throw SqrtOfNegative
  /\ Unit.SqrtNewton (Unit.of_int 0) = Ok (Unit.From 0)
  /\ Unit.SqrtNewton_run (Unit.of_int 0) = Ok (Unit.From 0, 0%nat).
Proof.
  split.
  - apply (proj1 (SqrtNewton_domain (Unit.of_int (-1)))); vm_compute; reflexivity.
  - apply (proj2 (SqrtNewton_domain (Unit.of_int 0))); vm_compute; reflexivity.
Defined.

(** ** Comparison *)

(** C6. The ordering operators against a plain integer compare the raw
    value with the integer as it is, unscaled; the comparison with the
    scalar built from the same integer can give the other answer. *)
Theorem int_ordering_unscaled (a : Unit.t) (n : Z) :
  (Unit.gt_int a n = true <-> Unit._raw a > n)
  /\ (Unit.ge_int a n = true <-> Unit._raw a >= n)
  /\ (Unit.lt_int a n = true <-> Unit._raw a < n)
  /\ (Unit.le_int a n = true <-> Unit._raw a <= n)
  /\ (Unit.gt_int (Unit.of_int 7) 8 = true /\ Unit.gt (Unit.of_int 7) (Unit.of_int 8) = false).
Proof.
  unfold Unit.gt_int, Unit.ge_int, Unit.lt_int, Unit.le_int.
  split; [ | split; [ | split; [ | split]]].
  - destruct (Z.gtb_spec (Unit._raw a) n); split; intros; try lia; try reflexivity; discriminate.
  - destruct (Z.geb_spec (Unit._raw a) n); split; intros; try lia; try reflexivity; discriminate.
  - destruct (Z.ltb_spec (Unit._raw a) n); split; intros; try lia; try reflexivity; discriminate.
  - destruct (Z.leb_spec (Unit._raw a) n); split; intros; try lia; try reflexivity; discriminate.
  - split; reflexivity.
Qed.

Lemma int_ordering_unscaled_seven :
  Unit.gt_int (Unit.of_int 7) 6 = true /\ Unit._raw (Unit.of_int 7) >= 8.
Proof.
  pose proof (int_ordering_unscaled (Unit.of_int 7) 6) as (Hgt & _).
  pose proof (int_ordering_unscaled (Unit.of_int 7) 8) as (_ & Hge & _).
  split.
  - apply Hgt; vm_compute; reflexivity.
  - apply Hge; vm_compute; reflexivity.
Defined.

(** C9. Equality of a scalar with a plain integer [n] goes through the
    scaling constructor: it holds exactly when the raw value is the 32-bit
    product [n * ONE] (the product itself whenever that is representable),
    whereas [a > n] compares the raw value with [n] unscaled.  For the
    scalar 7, [a == 7] holds, and [a > 6] holds because raw 229376 > 6. *)
Theorem eq_int_scaled (a : Unit.t) (n : Z) :
  (Unit.eq_int a n = true <-> Unit._raw a = I32.mul n Unit.ONE)
  /\ (I32.in_range (n * Unit.ONE) ->
      (Unit.eq_int a n = true <-> Unit._raw a = n * Unit.ONE))
  /\ (Unit.gt_int a n = true <-> Unit._raw a > n)
  /\ (Unit.eq_int (Unit.of_int 7) 7 = true
      /\ Unit.gt_int (Unit.of_int 7) 6 = true
      /\ Unit._raw (Unit.of_int 7) = 229376).
Proof.
  assert (Heq : Unit.eq_int a n = true <-> Unit._raw a = I32.mul n Unit.ONE).
  { unfold Unit.eq_int, Unit.eq, Unit.of_int; cbn [Unit._raw]. apply Z.eqb_eq. }
  split; [exact Heq | ].
  split.
  { intros Hr. unfold I32.mul in Heq. rewrite (I32_wrap_id _ Hr) in Heq. exact Heq. }
  split.
  { unfold Unit.gt_int.
    destruct (Z.gtb_spec (Unit._raw a) n); split; intros; try lia; try reflexivity; discriminate. }
  split; [reflexivity | split; reflexivity].
Qed.

Lemma eq_int_scaled_seven :
  Unit.eq_int (Unit.From 229376) 7 = true /\ Unit.eq_int (Unit.From 7) 7 = false.
Proof.
  pose proof (eq_int_scaled (Unit.From 229376) 7) as (_ & H1 & _).
  pose proof (eq_int_scaled (Unit.From 7) 7) as (_ & H2 & _).
  split.
  - apply H1; vm_compute; [split; discriminate | reflexivity].
  - destruct (Unit.eq_int (Unit.From 7) 7) eqn:E in |- *; [ | reflexivity].
    apply H2 in E; [vm_compute in E; discriminate E | vm_compute; split; discriminate].
Defined.

(** ** Additive inverse *)

Lemma I32_add_neg (r : Z) : I32.add r (I32.neg r) = 0.
Proof.
  unfold I32.add, I32.neg.
  destruct (I32_wrap_decomp (- r)) as [k Hk]; rewrite Hk.
  rewrite (I32_wrap_congr (r + (- r + k * 2 ^ 32)) 0 k) by ring.
  reflexivity.
Qed.

(** C7. Negation negates the raw value and addition adds raw values, both
    in 32-bit wrap-around arithmetic, and [a + (-a)] equals the scalar
    built from the integer 0, for every scalar [a]. *)
Theorem add_neg_is_zero (a b : Unit.t) :
  Unit._raw (Unit.neg a) = I32.wrap (- Unit._raw a)
  /\ Unit._raw (Unit.add a b) = I32.wrap (Unit._raw a + Unit._raw b)
  /\ Unit.eq (Unit.add a (Unit.neg a)) (Unit.of_int 0) = true
  /\ Unit.eq_int (Unit.add a (Unit.neg a)) 0 = true.
Proof.
  split; [reflexivity | split; [reflexivity | ]].
  assert (H : Unit.eq (Unit.add a (Unit.neg a)) (Unit.of_int 0) = true).
  { unfold Unit.eq, Unit.add, Unit.neg; cbn [Unit._raw Unit.From].
    rewrite I32_add_neg; reflexivity. }
  split; exact H.
Qed.

(** ** Dot product *)

(** C8. [Dot] is the sum, by the scalar addition, of the three per-axis
    scalar products, so it carries their rounding and narrowing; and
    [Dot((1,2,3),(4,5,6))] equals the scalar 32. *)
Theorem Dot_formula (v1 v2 : Vec3.t) :
  Vec3.Dot v1 v2 =
    Unit.add (Unit.add (Unit.mul (Vec3.x v1) (Vec3.x v2))
                       (Unit.mul (Vec3.y v1) (Vec3.y v2)))
             (Unit.mul (Vec3.z v1) (Vec3.z v2))
  /\ (Vec3_in_range v1 -> Vec3_in_range v2 ->
      Unit._raw (Vec3.Dot v1 v2) =
        I32.wrap
          (I32.wrap (mul_raw (Unit._raw (Vec3.x v1)) (Unit._raw (Vec3.x v2)) +
                     mul_raw (Unit._raw (Vec3.y v1)) (Unit._raw (Vec3.y v2))) +
           mul_raw (Unit._raw (Vec3.z v1)) (Unit._raw (Vec3.z v2))))
  /\ Unit.eq_int (Vec3.Dot (Vec3.of_ints 1 2 3) (Vec3.of_ints 4 5 6)) 32 = true.
Proof.
  split; [reflexivity | split; [ | reflexivity]].
  intros (Hx1 & Hy1 & Hz1) (Hx2 & Hy2 & Hz2).
  unfold Vec3.Dot.
  rewrite (mul_exact _ _ Hx1 Hx2), (mul_exact _ _ Hy1 Hy2), (mul_exact _ _ Hz1 Hz2).
  reflexivity.
Qed.

Lemma Dot_formula_negative_axis :
  Unit._raw (Vec3.Dot (Vec3.of_ints 1 2 (-3)) (Vec3.of_ints 4 5 6)) = -131071.
Proof.
  pose proof (Dot_formula (Vec3.of_ints 1 2 (-3)) (Vec3.of_ints 4 5 6)) as (_ & H & _).
  rewrite H; [reflexivity | | ]; vm_compute; intuition discriminate.
Defined.

(** ** Compound division *)

(** C10. [a /= b] with a zero-raw divisor throws [DivisionByZero] and
    leaves [a] as it was; so do both vector forms of [/=], for a vector
    divisor with a zero-raw component and for a zero-raw scalar divisor. *)
Theorem div_assign_atomic (a b : Unit.t) (v w : Vec3.t) :
  (Unit._raw b = 0 -> Unit.div_assign b a = (a, Throw DivisionByZero))
  /\ (has_zero_component w -> Vec3.div_assign w v = (v, Throw DivisionByZero))
  /\ (Unit._raw b = 0 -> Vec3.div_assign_unit b v = (v, Throw DivisionByZero)).
Proof.
  split; [ | split].
  - intros H; unfold Unit.div_assign; rewrite (div_zero a b H); reflexivity.
  - intros H; unfold Vec3.div_assign, Vec3.assign_partial.
    rewrite (Vec3_div_zero v w H); reflexivity.
  - intros H; unfold Vec3.div_assign_unit, Vec3.assign_partial.
    rewrite (Vec3_div_unit_zero v b H); reflexivity.
Qed.

Lemma div_assign_atomic_six_by_zero :
  Unit.div_assign (Unit.of_int 0) (Unit.of_int 6) = (Unit.of_int 6, Throw DivisionByZero)
  /\ Vec3.div_assign (Vec3.of_ints 1 1 0) (Vec3.of_ints 2 3 4)
     = (Vec3.of_ints 2 3 4, Throw DivisionByZero)
  /\ Vec3.div_assign_unit (Unit.of_int 0) (Vec3.of_ints 2 3 4)
     = (Vec3.of_ints 2 3 4, Throw DivisionByZero).
Proof.
  pose proof (div_assign_atomic (Unit.of_int 6) (Unit.of_int 0)
                (Vec3.of_ints 2 3 4) (Vec3.of_ints 1 1 0)) as (H1 & H2 & H3).
  split; [ | split].
  - apply H1; reflexivity.
  - apply H2; right; right; reflexivity.
  - apply H3; reflexivity.
Defined.

(** A compound division that throws never changes its left operand, and
    one that returns has stored the quotient. *)
Lemma div_assign_outcome (a b : Unit.t) :
  match Unit.div a b with
  | Ok q => Unit.div_assign b a = (q, Ok tt)
  | Throw e => Unit.div_assign b a = (a, Throw e)
  end.
Proof. unfold Unit.div_assign; destruct (Unit.div a b); reflexivity. Qed.

(** ** The raw encoding stays a 32-bit value *)

Lemma of_int_in_range (n : Z) : I32.in_range (Unit._raw (Unit.of_int n)).
Proof. apply I32_wrap_range. Qed.

Lemma neg_in_range (a : Unit.t) : I32.in_range (Unit._raw (Unit.neg a)).
Proof. apply I32_wrap_range. Qed.

Lemma add_in_range (a b : Unit.t) : I32.in_range (Unit._raw (Unit.add a b)).
Proof. apply I32_wrap_range. Qed.

Lemma sub_in_range (a b : Unit.t) : I32.in_range (Unit._raw (Unit.sub a b)).
Proof. apply I32_wrap_range. Qed.

Lemma mul_in_range (a b : Unit.t) : I32.in_range (Unit._raw (Unit.mul a b)).
Proof. apply I32_wrap_range. Qed.

Lemma div_in_range (a b q : Unit.t) :
  Unit.div a b = Ok q -> I32.in_range (Unit._raw q).
Proof.
  unfold Unit.div; destruct (Unit._raw b =? 0); [discriminate | ].
  intros E; injection E as <-; apply I32_wrap_range.
Qed.

(** ** The assertions of the test suite, replayed on the embedding *)

Example test_add_sub :
  Unit.eq_int (Unit.add (Unit.of_int 3) (Unit.of_int 4)) 7 = true
  /\ Unit.eq_int (Unit.sub (Unit.of_int 10) (Unit.of_int 4)) 6 = true.
Proof. split; reflexivity. Qed.

Example test_mul_div :
  Unit.eq_int (Unit.mul (Unit.of_int 3) (Unit.of_int 2)) 6 = true
  /\ Unit.div (Unit.of_int 6) (Unit.of_int 2) = Ok (Unit.of_int 3).
Proof. split; reflexivity. Qed.

Example test_compound :
  let a0 := Unit.of_int 1 in
  let a1 := fst (Unit.add_assign (Unit.of_int 2) a0) in
  let a2 := fst (Unit.sub_assign (Unit.of_int 1) a1) in
  let a3 := fst (Unit.mul_assign (Unit.of_int 3) a2) in
  let a4 := fst (Unit.div_assign (Unit.of_int 2) a3) in
  Unit.eq_int a1 3 = true /\ Unit.eq_int a2 2 = true
  /\ Unit.eq_int a3 6 = true /\ a4 = Unit.of_int 3.
Proof. cbv zeta; repeat split. Qed.

Example test_sqrt_perfect_squares :
  Unit.SqrtNewton (Unit.of_int 4) = Ok (Unit.of_int 2)
  /\ Unit.SqrtNewton (Unit.of_int 9) = Ok (Unit.of_int 3)
  /\ Unit.SqrtNewton (Unit.of_int 16) = Ok (Unit.of_int 4)
  /\ Unit.SqrtNewton (Unit.of_int 25) = Ok (Unit.of_int 5)
  /\ Unit.SqrtNewton (Unit.of_int 100) = Ok (Unit.of_int 10)
  /\ Unit.SqrtNewton (Unit.of_int 10000) = Ok (Unit.of_int 100)
  /\ Unit.SqrtNewton (Unit.of_int 1) = Ok (Unit.of_int 1).
Proof. vm_compute; repeat split. Qed.

(** 46341 / 32768 = 1.41422, within 1e-4 of the square root of 2. *)
Example test_sqrt_two : Unit.SqrtNewton (Unit.of_int 2) = Ok (Unit.From 46341).
Proof. vm_compute; reflexivity. Qed.

Example test_vec3 :
  Vec3.eq (Vec3.sub (Vec3.add (Vec3.of_ints 1 2 3) (Vec3.of_ints 4 5 6)) (Vec3.of_ints 4 5 6))
          (Vec3.of_ints 1 2 3) = true
  /\ Vec3.eq (Vec3.mul (Vec3.of_ints 1 2 3) (Vec3.of_ints 4 5 6)) (Vec3.of_ints 4 10 18) = true
  /\ Vec3.eq (Vec3.mul_unit (Vec3.of_ints 1 2 3) (Unit.of_int 3)) (Vec3.of_ints 3 6 9) = true
  /\ Vec3.eq (Vec3.add_unit (Vec3.of_ints 1 2 3) (Unit.of_int 2)) (Vec3.of_ints 3 4 5) = true.
Proof. vm_compute; repeat split. Qed.

(** * Further properties of the header *)

(** ** Wrap-around arithmetic of [operator+], [operator-] and negation *)

Lemma Unit_ext (a b : Unit.t) : Unit._raw a = Unit._raw b -> a = b.
Proof. destruct a, b; cbn; intros ->; reflexivity. Qed.

Lemma I32_wrap_add_l (a b : Z) : I32.wrap (I32.wrap a + b) = I32.wrap (a + b).
Proof.
  destruct (I32_wrap_decomp a) as [k ->].
  apply (I32_wrap_congr _ _ k); ring.
Qed.

Lemma I32_wrap_add_r (a b : Z) : I32.wrap (a + I32.wrap b) = I32.wrap (a + b).
Proof. rewrite Z.add_comm, I32_wrap_add_l; f_equal; ring. Qed.

Lemma I32_wrap_opp (a : Z) : I32.wrap (- I32.wrap a) = I32.wrap (- a).
Proof.
  destruct (I32_wrap_decomp a) as [k ->].
  apply (I32_wrap_congr _ _ (- k)); ring.
Qed.

Lemma I32_wrap_mul_l (a b : Z) : I32.wrap (I32.wrap a * b) = I32.wrap (a * b).
Proof.
  destruct (I32_wrap_decomp a) as [k ->].
  apply (I32_wrap_congr _ _ (k * b)); ring.
Qed.

(** Addition is commutative and associative on every pair of raw values,
    overflowing sums included. *)
Theorem add_comm_assoc (a b c : Unit.t) :
  Unit.add a b = Unit.add b a
  /\ Unit.add (Unit.add a b) c = Unit.add a (Unit.add b c).
Proof.
  split; apply Unit_ext; unfold Unit.add, I32.add; cbn [Unit._raw Unit.From].
  - f_equal; ring.
  - rewrite I32_wrap_add_l, I32_wrap_add_r; f_equal; ring.
Qed.

(** [a - b] is [a + (-b)], also when [-b] or the sum wraps. *)
Theorem sub_is_add_neg (a b : Unit.t) : Unit.sub a b = Unit.add a (Unit.neg b).
Proof.
  apply Unit_ext; unfold Unit.sub, Unit.add, Unit.neg, I32.sub, I32.add, I32.neg.
  cbn [Unit._raw Unit.From]. rewrite I32_wrap_add_r; f_equal; ring.
Qed.

Lemma add_sub_cancel_l (a b : Unit.t) :
  I32.in_range (Unit._raw a) -> Unit.sub (Unit.add a b) b = a.
Proof.
  intros Ha; apply Unit_ext;
    unfold Unit.sub, Unit.add, I32.sub, I32.add; cbn [Unit._raw Unit.From].
  replace (I32.wrap (Unit._raw a + Unit._raw b) - Unit._raw b)
    with (I32.wrap (Unit._raw a + Unit._raw b) + - Unit._raw b) by ring.
  rewrite I32_wrap_add_l.
  replace (Unit._raw a + Unit._raw b + - Unit._raw b) with (Unit._raw a) by ring.
  apply I32_wrap_id, Ha.
Qed.

Lemma sub_add_cancel_l (a b : Unit.t) :
  I32.in_range (Unit._raw a) -> Unit.add (Unit.sub a b) b = a.
Proof.
  intros Ha; apply Unit_ext;
    unfold Unit.sub, Unit.add, I32.sub, I32.add; cbn [Unit._raw Unit.From].
  rewrite I32_wrap_add_l.
  replace (Unit._raw a - Unit._raw b + Unit._raw b) with (Unit._raw a) by ring.
  apply I32_wrap_id, Ha.
Qed.

(** Adding and then subtracting the same scalar (or the converse) gives
    back a 32-bit left operand, whether or not the intermediate wrapped. *)
Theorem add_sub_cancel (a b : Unit.t) :
  I32.in_range (Unit._raw a) ->
  Unit.sub (Unit.add a b) b = a /\ Unit.add (Unit.sub a b) b = a.
Proof.
  intros Ha; split; [apply add_sub_cancel_l | apply sub_add_cancel_l]; exact Ha.
Qed.

Lemma add_sub_cancel_overflowing :
  Unit.sub (Unit.add (Unit.From 2147483647) (Unit.of_int 1)) (Unit.of_int 1)
  = Unit.From 2147483647.
Proof.
  apply (add_sub_cancel (Unit.From 2147483647) (Unit.of_int 1)).
  vm_compute; split; discriminate.
Defined.

(** Negating twice gives back a 32-bit scalar; the scalars that are their
    own negation are the one with raw 0 and the one with raw [INT32_MIN]. *)
Theorem neg_involutive (a : Unit.t) :
  I32.in_range (Unit._raw a) ->
  Unit.neg (Unit.neg a) = a
  /\ (Unit.neg a = a <-> Unit._raw a = 0 \/ Unit._raw a = I32.min_signed).
Proof.
  intros Ha; split.
  - apply Unit_ext; unfold Unit.neg, I32.neg; cbn [Unit._raw Unit.From].
    rewrite I32_wrap_opp, Z.opp_involutive. apply I32_wrap_id, Ha.
  - unfold Unit.neg, I32.neg, Unit.From. destruct a as [r]; cbn [Unit._raw] in *.
    unfold I32.in_range, I32.min_signed, I32.max_signed in *.
    split.
    + intros E; injection E as E.
      destruct (Z.eq_dec r (- 2 ^ 31)) as [-> | Hm]; [right; reflexivity | left].
      rewrite I32_wrap_id in E
        by (unfold I32.in_range, I32.min_signed, I32.max_signed; lia).
      lia.
    + intros [-> | ->]; reflexivity.
Qed.

Lemma neg_involutive_min_signed :
  Unit.neg (Unit.neg (Unit.of_int (-65536))) = Unit.of_int (-65536)
  /\ Unit.neg (Unit.of_int (-65536)) = Unit.of_int (-65536).
Proof.
  destruct (neg_involutive (Unit.of_int (-65536))) as [H1 H2].
  - vm_compute; split; discriminate.
  - split; [exact H1 | apply H2; right; reflexivity].
Defined.

(** The scaling constructor commutes with 32-bit addition, subtraction
    and negation of its integer argument, overflow included. *)
Theorem of_int_additive (n m : Z) :
  Unit.of_int (I32.add n m) = Unit.add (Unit.of_int n) (Unit.of_int m)
  /\ Unit.of_int (I32.sub n m) = Unit.sub (Unit.of_int n) (Unit.of_int m)
  /\ Unit.of_int (I32.neg n) = Unit.neg (Unit.of_int n).
Proof.
  split; [ | split]; apply Unit_ext;
    unfold Unit.of_int, Unit.add, Unit.sub, Unit.neg, I32.add, I32.sub, I32.neg, I32.mul;
    cbn [Unit._raw Unit.From].
  - rewrite I32_wrap_mul_l, I32_wrap_add_l, I32_wrap_add_r; f_equal; ring.
  - replace (I32.wrap (n * Unit.ONE) - I32.wrap (m * Unit.ONE))
      with (I32.wrap (n * Unit.ONE) + - I32.wrap (m * Unit.ONE)) by ring.
    rewrite I32_wrap_mul_l, I32_wrap_add_l.
    rewrite <- (I32_wrap_add_r _ (- I32.wrap (m * Unit.ONE))), I32_wrap_opp, I32_wrap_add_r.
    f_equal; ring.
  - rewrite I32_wrap_mul_l, I32_wrap_opp; f_equal; ring.
Qed.

(** ** Rounding of [operator*] *)

Lemma mul_sym (a b : Unit.t) : Unit.mul a b = Unit.mul b a.
Proof. unfold Unit.mul, I64.mul; rewrite (Z.mul_comm (Unit._raw a)); reflexivity. Qed.

Lemma mul_zero_r (a : Unit.t) :
  I32.in_range (Unit._raw a) -> Unit.mul a (Unit.of_int 0) = Unit.of_int 0.
Proof.
  intros Ha. rewrite (mul_exact a _ Ha) by apply I32_wrap_range.
  change (Unit._raw (Unit.of_int 0)) with 0. rewrite Z.mul_0_r; reflexivity.
Qed.

(** [operator*] is commutative. *)
Theorem mul_comm (a b : Unit.t) : Unit.mul a b = Unit.mul b a.
Proof. apply mul_sym. Qed.

(** [Unit(1)] is neutral for [operator*] only on non-negative raw values:
    a negative raw value comes back one unit larger.  Likewise [Unit(-1)]
    negates only non-positive raw values; and [Unit(0)] absorbs. *)
Theorem mul_by_unit_constants (a : Unit.t) :
  I32.in_range (Unit._raw a) ->
  Unit.mul a (Unit.of_int 1)
    = (if Unit._raw a >=? 0 then a else Unit.From (Unit._raw a + 1))
  /\ Unit.mul a (Unit.of_int (-1))
    = (if Unit._raw a <=? 0 then Unit.neg a else Unit.From (- Unit._raw a + 1))
  /\ Unit.mul a (Unit.of_int 0) = Unit.of_int 0.
Proof.
  intros Ha.
  assert (H1 : I32.in_range (Unit._raw (Unit.of_int 1))) by apply I32_wrap_range.
  assert (Hm : I32.in_range (Unit._raw (Unit.of_int (-1)))) by apply I32_wrap_range.
  assert (H0 : I32.in_range (Unit._raw (Unit.of_int 0))) by apply I32_wrap_range.
  rewrite (mul_exact a _ Ha H1), (mul_exact a _ Ha Hm), (mul_exact a _ Ha H0).
  destruct a as [r]; cbn [Unit._raw] in *.
  change (Unit._raw (Unit.of_int 1)) with 32768.
  change (Unit._raw (Unit.of_int (-1))) with (-32768).
  change (Unit._raw (Unit.of_int 0)) with 0.
  change (Z.quot Unit.ONE 2) with 16384; unfold Unit.ONE.
  unfold I32.in_range, I32.min_signed, I32.max_signed in Ha.
  split; [ | split].
  - destruct (Z.geb_spec r 0).
    + replace (Z.quot (r * 32768 + 16384) 32768) with r
        by (Z.to_euclidean_division_equations; lia).
      unfold Unit.From; f_equal; apply I32_wrap_id.
      unfold I32.in_range, I32.min_signed, I32.max_signed; lia.
    + replace (Z.quot (r * 32768 + 16384) 32768) with (r + 1)
        by (Z.to_euclidean_division_equations; lia).
      f_equal; apply I32_wrap_id.
      unfold I32.in_range, I32.min_signed, I32.max_signed; lia.
  - destruct (Z.leb_spec r 0).
    + replace (Z.quot (r * -32768 + 16384) 32768) with (- r)
        by (Z.to_euclidean_division_equations; lia).
      reflexivity.
    + replace (Z.quot (r * -32768 + 16384) 32768) with (- r + 1)
        by (Z.to_euclidean_division_equations; lia).
      f_equal; apply I32_wrap_id.
      unfold I32.in_range, I32.min_signed, I32.max_signed; lia.
  - rewrite Z.mul_0_r; reflexivity.
Qed.

Lemma mul_by_unit_constants_minus_half :
  Unit.mul (Unit.From (-16384)) (Unit.of_int 1) = Unit.From (-16383)
  /\ Unit.mul (Unit.From 16384) (Unit.of_int (-1)) = Unit.From (-16383).
Proof.
  split.
  - apply (mul_by_unit_constants (Unit.From (-16384))); vm_compute; split; discriminate.
  - apply (mul_by_unit_constants (Unit.From 16384)); vm_compute; split; discriminate.
Defined.

(** The product of two scalars built from integers, when the integers and
    their product are within -65536 .. 65535: exact when the product is
    non-negative, one raw unit above the exact scalar when it is negative. *)
Theorem mul_of_ints (n m : Z) :
  - 65536 <= n <= 65535 -> - 65536 <= m <= 65535 -> - 65536 <= n * m <= 65535 ->
  Unit.mul (Unit.of_int n) (Unit.of_int m)
  = (if n * m >=? 0 then Unit.of_int (n * m) else Unit.From (n * m * Unit.ONE + 1)).
Proof.
  intros Hn Hm Hnm.
  assert (Hof : forall k, - 65536 <= k <= 65535 -> Unit._raw (Unit.of_int k) = k * 32768).
  { intros k Hk; unfold Unit.of_int, I32.mul, Unit.ONE; cbn [Unit._raw].
    apply I32_wrap_id; unfold I32.in_range, I32.min_signed, I32.max_signed; lia. }
  rewrite mul_exact by apply I32_wrap_range.
  rewrite (Hof n Hn), (Hof m Hm).
  change (Z.quot Unit.ONE 2) with 16384; unfold Unit.ONE.
  replace (n * 32768 * (m * 32768)) with (n * m * 1073741824) by ring.
  revert Hnm; generalize (n * m); intros k Hk.
  destruct (Z.geb_spec k 0).
  - replace (Z.quot (k * 1073741824 + 16384) 32768) with (k * 32768)
      by (Z.to_euclidean_division_equations; lia).
    apply Unit_ext; cbn [Unit._raw Unit.From]. rewrite (Hof k Hk).
    apply I32_wrap_id; unfold I32.in_range, I32.min_signed, I32.max_signed; lia.
  - replace (Z.quot (k * 1073741824 + 16384) 32768) with (k * 32768 + 1)
      by (Z.to_euclidean_division_equations; lia).
    f_equal. apply I32_wrap_id; unfold I32.in_range, I32.min_signed, I32.max_signed; lia.
Qed.

Lemma mul_of_ints_six :
  Unit.mul (Unit.of_int 3) (Unit.of_int 2) = Unit.of_int 6
  /\ Unit.mul (Unit.of_int (-3)) (Unit.of_int 2) = Unit.From (-196607).
Proof.
  split.
  - apply (mul_of_ints 3 2); lia.
  - apply (mul_of_ints (-3) 2); lia.
Defined.

(** ** Rounding of [operator/] *)

(** The quotient [operator/] narrows, in unbounded integers. *)
Lemma div_quotient (a b : Unit.t) :
  I32.in_range (Unit._raw a) -> I32.in_range (Unit._raw b) ->
  Unit._raw b <> 0 -> Unit._raw b <> I32.min_signed ->
  Unit.div a b =
  Ok (Unit.From
        (I32.wrap
           (Z.quot (Unit._raw a * 32768 + Z.sgn (Unit._raw b) * (Z.abs (Unit._raw b) / 2))
                   (Unit._raw b)))).
Proof.
  intros Ha Hb Hnz Hmin.
  rewrite (div_exact a b Ha Hb Hnz), (I32_abs_spec _ Hb Hmin).
  rewrite (Z.quot_div_nonneg (Z.abs (Unit._raw b)) 2) by lia.
  do 4 f_equal; unfold Unit.ONE; f_equal.
  destruct (Z.gtb_spec (Unit._raw b) 0); [rewrite Z.sgn_pos by lia | rewrite Z.sgn_neg by lia]; ring.
Qed.

Lemma quot_same_sign_nearest (n d : Z) :
  d <> 0 -> 0 <= n * Z.sgn d ->
  2 * Z.abs (Z.quot (n + Z.sgn d * (Z.abs d / 2)) d * d - n) <= Z.abs d.
Proof.
  intros Hd Hs.
  destruct (Z.lt_trichotomy d 0) as [Hneg | [-> | Hpos]]; [ | lia | ].
  - rewrite Z.sgn_neg in * by lia.
    Z.to_euclidean_division_equations; nia.
  - rewrite Z.sgn_pos in * by lia.
    Z.to_euclidean_division_equations; nia.
Qed.

Lemma quot_opposite_sign_above (n d : Z) :
  2 <= Z.abs d -> n * Z.sgn d < 0 ->
  0 < (Z.quot (n + Z.sgn d * (Z.abs d / 2)) d * d - n) * Z.sgn d
  /\ 2 * ((Z.quot (n + Z.sgn d * (Z.abs d / 2)) d * d - n) * Z.sgn d) < 3 * Z.abs d.
Proof.
  intros Hd Hs.
  destruct (Z.lt_trichotomy d 0) as [Hneg | [-> | Hpos]]; [ | lia | ].
  - rewrite Z.sgn_neg in * by lia.
    destruct (Z_lt_le_dec (n + -1 * (Z.abs d / 2)) 0) as [Hlt | Hge].
    + replace (Z.quot (n + -1 * (Z.abs d / 2)) d) with 0.
      * Z.to_euclidean_division_equations; nia.
      * symmetry; rewrite <- Z.quot_opp_opp by lia; apply Z.quot_small.
        Z.to_euclidean_division_equations; nia.
    + Z.to_euclidean_division_equations; nia.
  - rewrite Z.sgn_pos in * by lia.
    destruct (Z_lt_le_dec 0 (n + 1 * (Z.abs d / 2))) as [Hlt | Hge].
    + replace (Z.quot (n + 1 * (Z.abs d / 2)) d) with 0.
      * Z.to_euclidean_division_equations; nia.
      * symmetry; apply Z.quot_small.
        Z.to_euclidean_division_equations; nia.
    + Z.to_euclidean_division_equations; nia.
Qed.

(** When the dividend is zero or has the sign of the divisor, the
    quotient that [operator/] narrows is a nearest integer to
    [raw a * ONE / raw b]. *)
Theorem div_same_sign_nearest (a b : Unit.t) :
  I32.in_range (Unit._raw a) -> I32.in_range (Unit._raw b) ->
  Unit._raw b <> 0 -> Unit._raw b <> I32.min_signed ->
  0 <= Unit._raw a * Z.sgn (Unit._raw b) ->
  exists q, Unit.div a b = Ok (Unit.From (I32.wrap q))
            /\ 2 * Z.abs (q * Unit._raw b - Unit._raw a * Unit.ONE) <= Z.abs (Unit._raw b).
Proof.
  intros Ha Hb Hnz Hmin Hs.
  eexists; split; [apply (div_quotient a b Ha Hb Hnz Hmin) | ].
  unfold Unit.ONE; apply quot_same_sign_nearest; [exact Hnz | nia].
Qed.

Lemma div_same_sign_nearest_third :
  exists q, Unit.div (Unit.of_int 1) (Unit.of_int 3) = Ok (Unit.From (I32.wrap q))
            /\ 2 * Z.abs (q * 98304 - 32768 * 32768) <= 98304.
Proof.
  apply (div_same_sign_nearest (Unit.of_int 1) (Unit.of_int 3));
    vm_compute; try split; discriminate.
Defined.

(** When dividend and divisor have opposite signs (and the divisor is not
    raw 1 or -1), the quotient lies strictly above the exact one, by less
    than one and a half units: it is never the exact quotient, even when
    the division has no remainder. *)
Theorem div_opposite_sign_above (a b : Unit.t) :
  I32.in_range (Unit._raw a) -> I32.in_range (Unit._raw b) ->
  2 <= Z.abs (Unit._raw b) -> Unit._raw b <> I32.min_signed ->
  Unit._raw a * Z.sgn (Unit._raw b) < 0 ->
  exists q, Unit.div a b = Ok (Unit.From (I32.wrap q))
            /\ 0 < (q * Unit._raw b - Unit._raw a * Unit.ONE) * Z.sgn (Unit._raw b)
            /\ 2 * ((q * Unit._raw b - Unit._raw a * Unit.ONE) * Z.sgn (Unit._raw b))
               < 3 * Z.abs (Unit._raw b).
Proof.
  intros Ha Hb Hb2 Hmin Hs.
  assert (Hnz : Unit._raw b <> 0) by lia.
  eexists; split; [apply (div_quotient a b Ha Hb Hnz Hmin) | ].
  unfold Unit.ONE; apply quot_opposite_sign_above; [exact Hb2 | nia].
Qed.

Lemma div_opposite_sign_above_six_by_minus_two :
  exists q, Unit.div (Unit.of_int 6) (Unit.of_int (-2)) = Ok (Unit.From (I32.wrap q))
            /\ 0 < (q * -65536 - 196608 * 32768) * -1
            /\ 2 * ((q * -65536 - 196608 * 32768) * -1) < 3 * 65536.
Proof.
  apply (div_opposite_sign_above (Unit.of_int 6) (Unit.of_int (-2)));
    vm_compute; try split; try discriminate; reflexivity.
Defined.

(** A scalar divided by itself is [Unit(1)]; divided by [Unit(1)] it comes
    back unchanged when its raw value is non-negative and one unit larger
    when it is negative. *)
Theorem div_self_and_by_one (a : Unit.t) :
  I32.in_range (Unit._raw a) ->
  (Unit._raw a <> 0 -> Unit._raw a <> I32.min_signed -> Unit.div a a = Ok (Unit.of_int 1))
  /\ Unit.div a (Unit.of_int 1)
     = Ok (if Unit._raw a >=? 0 then a else Unit.From (Unit._raw a + 1)).
Proof.
  intros Ha; split.
  - intros Hnz Hmin. rewrite (div_quotient a a Ha Ha Hnz Hmin).
    destruct a as [r]; cbn [Unit._raw] in *.
    replace (Z.quot (r * 32768 + Z.sgn r * (Z.abs r / 2)) r) with 32768; [reflexivity | ].
    destruct (Z.lt_trichotomy r 0) as [Hneg | [-> | Hpos]]; [ | lia | ].
    + rewrite Z.sgn_neg by lia. Z.to_euclidean_division_equations; nia.
    + rewrite Z.sgn_pos by lia. Z.to_euclidean_division_equations; nia.
  - rewrite div_quotient;
      [ | exact Ha | apply I32_wrap_range | vm_compute; discriminate | vm_compute; discriminate].
    change (Unit._raw (Unit.of_int 1)) with 32768.
    destruct a as [r]; cbn [Unit._raw] in *.
    unfold I32.in_range, I32.min_signed, I32.max_signed in Ha.
    change (Z.sgn 32768 * (Z.abs 32768 / 2)) with 16384.
    destruct (Z.geb_spec r 0).
    + replace (Z.quot (r * 32768 + 16384) 32768) with r
        by (Z.to_euclidean_division_equations; lia).
      unfold Unit.From; do 2 f_equal; apply I32_wrap_id.
      unfold I32.in_range, I32.min_signed, I32.max_signed; lia.
    + replace (Z.quot (r * 32768 + 16384) 32768) with (r + 1)
        by (Z.to_euclidean_division_equations; lia).
      do 2 f_equal; apply I32_wrap_id.
      unfold I32.in_range, I32.min_signed, I32.max_signed; lia.
Qed.

Lemma div_self_and_by_one_minus_seven :
  Unit.div (Unit.of_int (-7)) (Unit.of_int (-7)) = Ok (Unit.of_int 1)
  /\ Unit.div (Unit.of_int (-7)) (Unit.of_int 1) = Ok (Unit.From (-229375)).
Proof.
  destruct (div_self_and_by_one (Unit.of_int (-7))) as [H1 H2].
  - vm_compute; split; discriminate.
  - split; [apply H1; vm_compute; discriminate | exact H2].
Defined.

(** Dividing an exact non-negative multiple by a positive integer scalar
    is exact, for integers whose scalars are representable. *)
Theorem div_of_ints_exact (k m : Z) :
  0 <= k -> 0 < m <= 65535 -> k * m <= 65535 ->
  Unit.div (Unit.of_int (k * m)) (Unit.of_int m) = Ok (Unit.of_int k).
Proof.
  intros Hk [Hm Hm'] Hkm.
  assert (Hof : forall j, 0 <= j <= 65535 -> Unit._raw (Unit.of_int j) = j * 32768).
  { intros j Hj; unfold Unit.of_int, I32.mul, Unit.ONE; cbn [Unit._raw].
    apply I32_wrap_id; unfold I32.in_range, I32.min_signed, I32.max_signed; lia. }
  assert (Hk' : k <= 65535) by nia.
  rewrite div_quotient; try apply I32_wrap_range;
    rewrite ?(Hof m) by lia; try (unfold I32.min_signed; lia).
  rewrite (Hof (k * m)) by nia.
  rewrite Z.sgn_pos, Z.abs_eq by lia.
  replace (Z.quot (k * m * 32768 * 32768 + 1 * (m * 32768 / 2)) (m * 32768))
    with (k * 32768).
  - reflexivity.
  - replace (m * 32768 / 2) with (m * 16384)
      by (Z.to_euclidean_division_equations; lia).
    apply Z.quot_unique with (r := m * 16384); [nia | nia | ring].
Qed.

Lemma div_of_ints_exact_six_by_two :
  Unit.div (Unit.of_int 6) (Unit.of_int 2) = Ok (Unit.of_int 3).
Proof. apply (div_of_ints_exact 3 2); lia. Defined.

(** ** Comparison operators, [Min] and [Max] *)

Lemma Unit_eq_true_iff (a b : Unit.t) : Unit.eq a b = true <-> a = b.
Proof.
  unfold Unit.eq; rewrite Z.eqb_eq; split; [apply Unit_ext | intros ->; reflexivity].
Qed.

(** The six scalar comparisons are the comparisons of the raw integers:
    [==] holds exactly for equal scalars, [<] and [<=] exactly when the
    raw values are so ordered; [<=] is reflexive, transitive,
    antisymmetric and total, [<] is transitive, exactly one of [<], [==],
    [>] holds, [>] is [<] with the operands exchanged, and [!=], [<=],
    [>=] are the negations of [==], [>], [<]. *)
Theorem comparisons_total_order (a b c : Unit.t) :
  (Unit.eq a b = true <-> a = b)
  /\ (Unit.lt a b = true <-> Unit._raw a < Unit._raw b)
  /\ (Unit.le a b = true <-> Unit._raw a <= Unit._raw b)
  /\ Unit.ne a b = negb (Unit.eq a b)
  /\ Unit.le a b = negb (Unit.gt a b)
  /\ Unit.ge a b = negb (Unit.lt a b)
  /\ Unit.gt a b = Unit.lt b a
  /\ Unit.ge a b = Unit.le b a
  /\ ((Unit.lt a b = true /\ Unit.eq a b = false /\ Unit.gt a b = false)
      \/ (Unit.lt a b = false /\ Unit.eq a b = true /\ Unit.gt a b = false)
      \/ (Unit.lt a b = false /\ Unit.eq a b = false /\ Unit.gt a b = true))
  /\ Unit.le a a = true
  /\ (Unit.le a b = true -> Unit.le b c = true -> Unit.le a c = true)
  /\ (Unit.lt a b = true -> Unit.lt b c = true -> Unit.lt a c = true)
  /\ (Unit.le a b = true -> Unit.le b a = true -> a = b)
  /\ (Unit.le a b = true \/ Unit.le b a = true).
Proof.
  split; [apply Unit_eq_true_iff | ].
  unfold Unit.eq, Unit.ne, Unit.le, Unit.ge, Unit.gt, Unit.lt.
  destruct a as [r], b as [s], c as [t]; cbn [Unit._raw].
  split; [apply Z.ltb_lt | split; [apply Z.leb_le | split; [reflexivity | ]]].
  split; [ | split; [ | split; [ | split; [ | split]]]].
  - destruct (Z.leb_spec r s), (Z.gtb_spec r s); try lia; reflexivity.
  - destruct (Z.geb_spec r s), (Z.ltb_spec r s); try lia; reflexivity.
  - destruct (Z.gtb_spec r s), (Z.ltb_spec s r); try lia; reflexivity.
  - destruct (Z.geb_spec r s), (Z.leb_spec s r); try lia; reflexivity.
  - destruct (Z.eqb_spec r s), (Z.ltb_spec r s), (Z.gtb_spec r s); try lia; intuition.
  - split; [apply Z.leb_refl | ].
    split; [rewrite !Z.leb_le; lia | ].
    split; [rewrite !Z.ltb_lt; lia | ].
    split; [rewrite !Z.leb_le; intros; f_equal; lia | ].
    rewrite !Z.leb_le; lia.
Qed.

Lemma comparisons_total_order_one_two_three :
  Unit.lt (Unit.of_int 1) (Unit.of_int 3) = true
  /\ Unit.le (Unit.of_int 1) (Unit.of_int 3) = true.
Proof.
  destruct (comparisons_total_order (Unit.of_int 1) (Unit.of_int 2) (Unit.of_int 3))
    as (_ & _ & _ & _ & _ & _ & _ & _ & _ & _ & Hle & Hlt & _).
  split; [apply Hlt; reflexivity | apply Hle; reflexivity].
Defined.

(** For an integer [n] in 0 .. 65535 the unscaled comparison against [n]
    is the weaker one: [a > Unit(n)] implies [a > n], and [a < n] implies
    [a < Unit(n)]; the two forms agree for every scalar only at [n = 0]. *)
Theorem int_ordering_vs_scaled (a : Unit.t) (n : Z) :
  0 <= n <= 65535 ->
  (Unit.gt a (Unit.of_int n) = true -> Unit.gt_int a n = true)
  /\ (Unit.lt_int a n = true -> Unit.lt a (Unit.of_int n) = true)
  /\ ((forall c, Unit.gt_int c n = Unit.gt c (Unit.of_int n)) <-> n = 0).
Proof.
  intros Hn.
  assert (Hof : Unit._raw (Unit.of_int n) = n * 32768).
  { unfold Unit.of_int, I32.mul, Unit.ONE; cbn [Unit._raw].
    apply I32_wrap_id; unfold I32.in_range, I32.min_signed, I32.max_signed; lia. }
  unfold Unit.gt, Unit.gt_int, Unit.lt, Unit.lt_int; rewrite Hof.
  split; [ | split; [ | split]].
  - rewrite !Z.gtb_gt; lia.
  - rewrite !Z.ltb_lt; lia.
  - intros H. specialize (H (Unit.From (n * 32768))); cbn [Unit._raw Unit.From] in H.
    destruct (Z.gtb_spec (n * 32768) n), (Z.gtb_spec (n * 32768) (n * 32768));
      try lia; discriminate.
  - intros -> c; reflexivity.
Qed.

Lemma int_ordering_vs_scaled_seven :
  Unit.gt_int (Unit.of_int 7) 6 = true.
Proof.
  destruct (int_ordering_vs_scaled (Unit.of_int 7) 6) as (H & _); [lia | ].
  apply H; reflexivity.
Defined.

(** [Min] and [Max] return one operand each, together they return both,
    [Min] is the greatest lower bound and [Max] the least upper bound. *)
Theorem Min_Max_lattice (a b c : Unit.t) :
  ((Min a b = a /\ Max a b = b) \/ (Min a b = b /\ Max a b = a))
  /\ Unit.le (Min a b) a = true /\ Unit.le (Min a b) b = true
  /\ Unit.ge (Max a b) a = true /\ Unit.ge (Max a b) b = true
  /\ (Unit.le c a = true -> Unit.le c b = true -> Unit.le c (Min a b) = true)
  /\ (Unit.ge c a = true -> Unit.ge c b = true -> Unit.ge c (Max a b) = true)
  /\ Min a b = Min b a /\ Max a b = Max b a.
Proof.
  unfold Min, Max, Unit.lt, Unit.gt, Unit.le, Unit.ge.
  destruct a as [r], b as [s], c as [t]; cbn [Unit._raw].
  destruct (Z.ltb_spec r s), (Z.gtb_spec r s), (Z.ltb_spec s r), (Z.gtb_spec s r);
    try lia; cbn [Unit._raw];
    repeat match goal with
      | |- _ /\ _ => split
      | |- (_ <=? _) = true => apply Z.leb_le
      | |- (_ >=? _) = true => apply Z.geb_le
      | |- (_ <=? _) = true -> _ => rewrite Z.leb_le; intros ?
      | |- (_ >=? _) = true -> _ => rewrite Z.geb_le; intros ?
      end; try lia; try reflexivity; try (f_equal; lia);
    try (left; split; reflexivity); try (right; split; reflexivity).
  left; split; f_equal; lia.
Qed.

Lemma Min_Max_lattice_bound :
  Unit.le (Unit.of_int 1) (Min (Unit.of_int 3) (Unit.of_int 2)) = true.
Proof.
  apply (Min_Max_lattice (Unit.of_int 3) (Unit.of_int 2) (Unit.of_int 1)); reflexivity.
Defined.

(** ** [Vec3] *)

Lemma Vec3_ext (v w : Vec3.t) :
  Vec3.x v = Vec3.x w -> Vec3.y v = Vec3.y w -> Vec3.z v = Vec3.z w -> v = w.
Proof. destruct v, w; cbn; intros -> -> ->; reflexivity. Qed.

(** [==] on vectors holds exactly for equal vectors, and [!=] is its
    negation. *)
Theorem Vec3_eq_exact (v w : Vec3.t) :
  (Vec3.eq v w = true <-> v = w) /\ Vec3.ne v w = negb (Vec3.eq v w).
Proof.
  split; [ | reflexivity].
  unfold Vec3.eq; rewrite !andb_true_iff.
  rewrite !Unit_eq_true_iff. split.
  - intros [[Hx Hy] Hz]; apply Vec3_ext; assumption.
  - intros ->; auto.
Qed.

(** Adding a vector (or a broadcast scalar) and subtracting it again gives
    back a 32-bit left operand, also through the compound forms. *)
Theorem Vec3_add_sub_cancel (v w : Vec3.t) (s : Unit.t) :
  Vec3_in_range v ->
  Vec3.sub (Vec3.add v w) w = v
  /\ Vec3.sub_unit (Vec3.add_unit v s) s = v
  /\ Vec3.sub_assign w (fst (Vec3.add_assign w v)) = (v, Ok tt)
  /\ Vec3.sub_assign_unit s (fst (Vec3.add_assign_unit s v)) = (v, Ok tt).
Proof.
  intros (Hx & Hy & Hz).
  assert (H1 : Vec3.sub (Vec3.add v w) w = v).
  { apply Vec3_ext; cbn; apply add_sub_cancel_l; assumption. }
  assert (H2 : Vec3.sub_unit (Vec3.add_unit v s) s = v).
  { apply Vec3_ext; cbn; apply add_sub_cancel_l; assumption. }
  split; [exact H1 | split; [exact H2 | split]].
  - unfold Vec3.sub_assign, Vec3.add_assign, Vec3.assign_total; cbn [fst].
    rewrite H1; reflexivity.
  - unfold Vec3.sub_assign_unit, Vec3.add_assign_unit, Vec3.assign_total; cbn [fst].
    rewrite H2; reflexivity.
Qed.

Lemma Vec3_add_sub_cancel_test :
  Vec3.sub (Vec3.add (Vec3.of_ints 1 2 3) (Vec3.of_ints 4 5 6)) (Vec3.of_ints 4 5 6)
  = Vec3.of_ints 1 2 3.
Proof.
  apply (Vec3_add_sub_cancel (Vec3.of_ints 1 2 3) (Vec3.of_ints 4 5 6) (Unit.of_int 0)).
  vm_compute; intuition discriminate.
Defined.

(** Every vector-with-scalar operator is the vector-with-vector operator
    applied to the scalar repeated on the three axes, including the
    exception thrown by the division. *)
Lemma Vec3_scalar_broadcast (v : Vec3.t) (s : Unit.t) :
  Vec3.add_unit v s = Vec3.add v (Vec3.Build s s s)
  /\ Vec3.sub_unit v s = Vec3.sub v (Vec3.Build s s s)
  /\ Vec3.mul_unit v s = Vec3.mul v (Vec3.Build s s s)
  /\ Vec3.div_unit v s = Vec3.div v (Vec3.Build s s s)
  /\ Vec3.div_assign_unit s v = Vec3.div_assign (Vec3.Build s s s) v.
Proof. repeat split. Qed.

(** Vector division returns exactly when no component of the divisor has
    raw value zero, and the result then holds the three scalar quotients. *)
Theorem Vec3_div_componentwise (v w : Vec3.t) :
  (~ has_zero_component w <-> exists q, Vec3.div v w = Ok q)
  /\ (forall q, Vec3.div v w = Ok q ->
        Unit.div (Vec3.x v) (Vec3.x w) = Ok (Vec3.x q)
        /\ Unit.div (Vec3.y v) (Vec3.y w) = Ok (Vec3.y q)
        /\ Unit.div (Vec3.z v) (Vec3.z w) = Ok (Vec3.z q)).
Proof.
  split.
  - split.
    + intros Hnz. destruct (Vec3.div v w) as [q | e] eqn:E; [exists q; reflexivity | ].
      destruct (Vec3_div_throw_inv _ _ _ E) as [Hz _]; contradiction.
    + intros [q E] Hz. rewrite (Vec3_div_zero v w Hz) in E; discriminate.
  - unfold Vec3.div; intros q.
    destruct (Unit.div (Vec3.x v) (Vec3.x w)) as [qx | ]; cbn [bind]; [ | discriminate].
    destruct (Unit.div (Vec3.y v) (Vec3.y w)) as [qy | ]; cbn [bind]; [ | discriminate].
    destruct (Unit.div (Vec3.z v) (Vec3.z w)) as [qz | ]; cbn [bind]; [ | discriminate].
    intros E; injection E as <-; cbn; auto.
Qed.

Lemma Vec3_div_componentwise_test :
  exists q, Vec3.div (Vec3.of_ints 4 10 18) (Vec3.of_ints 4 5 6) = Ok q.
Proof.
  apply (Vec3_div_componentwise (Vec3.of_ints 4 10 18) (Vec3.of_ints 4 5 6)).
  intros [H | [H | H]]; vm_compute in H; discriminate H.
Defined.

(** [Dot] is symmetric, and the dot product with the zero vector is the
    zero scalar. *)
Theorem Dot_comm_zero (v w : Vec3.t) :
  Vec3.Dot v w = Vec3.Dot w v
  /\ (Vec3_in_range v -> Vec3.Dot v (Vec3.of_ints 0 0 0) = Unit.of_int 0).
Proof.
  split.
  - unfold Vec3.Dot.
    rewrite (mul_sym (Vec3.x v)), (mul_sym (Vec3.y v)), (mul_sym (Vec3.z v)); reflexivity.
  - intros (Hx & Hy & Hz); unfold Vec3.Dot; cbn [Vec3.x Vec3.y Vec3.z Vec3.of_ints].
    rewrite (mul_zero_r _ Hx), (mul_zero_r _ Hy), (mul_zero_r _ Hz); reflexivity.
Qed.

Lemma Dot_comm_zero_test :
  Vec3.Dot (Vec3.of_ints 1 (-2) 3) (Vec3.of_ints 0 0 0) = Unit.of_int 0.
Proof.
  apply (Dot_comm_zero (Vec3.of_ints 1 (-2) 3) (Vec3.of_ints 0 0 0)).
  vm_compute; intuition discriminate.
Defined.

(** ** [SqrtNewton] *)

(** What the loop of [SqrtNewton] can do, whatever its arguments: it
    evaluates between one (when it runs at all) and [n] updates, it throws
    nothing but a division by zero, and when it stops before the cap the
    value it returns is a fixed point of the update. *)
Lemma SqrtNewton_loop_outcome (n : nat) :
  forall (u x : Unit.t) (s : nat),
  match Unit.SqrtNewton_loop n u x s with
  | Ok (r, k) =>
      (s <= k <= s + n)%nat
      /\ (n <> 0%nat -> (s < k)%nat)
      /\ ((k < s + n)%nat ->
          exists q, Unit.div u r = Ok q /\ Unit.div (Unit.add r q) (Unit.of_int 2) = Ok r)
  | Throw e => e = DivisionByZero
  end.
Proof.
  induction n as [ | n IH]; intros u x s; cbn [Unit.SqrtNewton_loop].
  - repeat split; try lia; intros; lia.
  - destruct (Unit.div u x) as [q | e] eqn:Eq; cbn [bind];
      [ | exact (proj2 (div_throw_inv _ _ _ Eq))].
    destruct (Unit.div (Unit.add x q) (Unit.of_int 2)) as [next | e] eqn:En; cbn [bind];
      [ | exact (proj2 (div_throw_inv _ _ _ En))].
    destruct (Unit.eq next x) eqn:Ex.
    + apply Unit_eq_true_iff in Ex; subst next.
      split; [lia | split; [lia | ]]. intros _; exists q; split; assumption.
    + specialize (IH u next (S s)).
      destruct (Unit.SqrtNewton_loop n u next (S s)) as [[r k] | e]; [ | exact IH].
      destruct IH as (Hk & _ & Hfix).
      split; [lia | split; [lia | ]]. intros Hlt; apply Hfix; lia.
Qed.

Section NewtonInvariant.

Variable u : Unit.t.
Variable Inv : nat -> Unit.t -> Prop.

Hypothesis Inv_weaken : forall n x, Inv (S n) x -> Inv n x.
Hypothesis Inv_step :
  forall n x, Inv (S n) x ->
  exists q next, Unit.div u x = Ok q
                 /\ Unit.div (Unit.add x q) (Unit.of_int 2) = Ok next
                 /\ Inv n next.

Lemma Inv_weaken_all (n : nat) (x : Unit.t) : Inv n x -> Inv 0 x.
Proof. induction n as [ | n IH]; [auto | intros H; apply IH, Inv_weaken, H]. Qed.

(** An invariant that every update keeps, with [n] updates to go, makes
    the loop return, and holds of what it returns. *)
Lemma SqrtNewton_loop_invariant (n : nat) :
  forall (x : Unit.t) (s : nat),
  Inv n x -> exists r k, Unit.SqrtNewton_loop n u x s = Ok (r, k) /\ Inv 0 r.
Proof.
  induction n as [ | n IH]; intros x s HI; cbn [Unit.SqrtNewton_loop].
  - exists x, s; split; [reflexivity | exact HI].
  - destruct (Inv_step n x HI) as (q & next & Hq & Hn & HI').
    rewrite Hq; cbn [bind]; rewrite Hn; cbn [bind].
    destruct (Unit.eq next x).
    + exists x, (S s); split; [reflexivity | exact (Inv_weaken_all _ _ HI)].
    + apply IH, HI'.
Qed.

End NewtonInvariant.

(** One Newton update on raw values: for a non-negative [u] and a positive
    [x] whose sum with the quotient fits in 32 bits, [u / x] is the
    half-up rounded quotient and the new value is the half-up rounded
    mean of [x] and that quotient. *)
Lemma Newton_update_raw (u x : Unit.t) :
  I32.in_range (Unit._raw u) -> 0 <= Unit._raw u ->
  0 < Unit._raw x ->
  let q := (Unit._raw u * 32768 + Unit._raw x / 2) / Unit._raw x in
  Unit._raw x + q <= I32.max_signed ->
  Unit.div u x = Ok (Unit.From q)
  /\ Unit.div (Unit.add x (Unit.From q)) (Unit.of_int 2)
     = Ok (Unit.From ((Unit._raw x + q + 1) / 2)).
Proof.
  intros Hu Hu0 Hx q Hsum.
  assert (Hq0 : 0 <= q) by (subst q; apply Z.div_pos; [ | lia];
                            pose proof (Z.div_pos (Unit._raw x) 2); lia).
  assert (Hxr : I32.in_range (Unit._raw x))
    by (unfold I32.in_range, I32.min_signed, I32.max_signed in *; lia).
  assert (Hqr : I32.in_range q)
    by (unfold I32.in_range, I32.min_signed, I32.max_signed in *; lia).
  assert (Hdiv : Unit.div u x = Ok (Unit.From q)).
  { rewrite div_quotient; [ | assumption | assumption | lia | unfold I32.min_signed; lia].
    rewrite Z.sgn_pos, Z.abs_eq, Z.mul_1_l by lia.
    rewrite Z.quot_div_nonneg; [ | | lia].
    - fold q; rewrite (I32_wrap_id q Hqr); reflexivity.
    - pose proof (Z.div_pos (Unit._raw x) 2); lia. }
  split; [exact Hdiv | ].
  assert (Hadd : Unit._raw (Unit.add x (Unit.From q)) = Unit._raw x + q).
  { unfold Unit.add, I32.add; cbn [Unit._raw Unit.From]. apply I32_wrap_id.
    unfold I32.in_range, I32.min_signed, I32.max_signed in *; lia. }
  rewrite div_quotient;
    [ | rewrite Hadd; unfold I32.in_range, I32.min_signed, I32.max_signed in *; lia
      | apply I32_wrap_range | vm_compute; discriminate | vm_compute; discriminate ].
  rewrite Hadd. change (Unit._raw (Unit.of_int 2)) with 65536.
  change (Z.sgn 65536 * (Z.abs 65536 / 2)) with 32768.
  replace (Z.quot ((Unit._raw x + q) * 32768 + 32768) 65536) with ((Unit._raw x + q + 1) / 2)
    by (Z.to_euclidean_division_equations; lia).
  do 2 f_equal. apply I32_wrap_id.
  unfold I32.in_range, I32.min_signed, I32.max_signed in *.
  Z.to_euclidean_division_equations; lia.
Qed.

(** The update on raw values at least [ONE] and at most [u]: quotient
    and new value stay between [ONE] and [u], and the new value is no more
    than a quarter below the exact root of [u * ONE]. *)
Lemma Newton_update_bounds (ru rx : Z) :
  32768 <= rx <= ru ->
  let q := (ru * 32768 + rx / 2) / rx in
  let nx := (rx + q + 1) / 2 in
  32768 <= q <= ru
  /\ 32768 <= nx <= ru
  /\ 16 * (ru * 32768) <= (4 * nx + 1) * (4 * nx + 1)
  /\ (nx = rx -> (rx - 1) * (rx - 1) <= ru * 32768 + 1).
Proof.
  intros [Hx Hxu] q nx.
  assert (Hh : 2 * (rx / 2) <= rx <= 2 * (rx / 2) + 1)
    by (Z.to_euclidean_division_equations; lia).
  pose proof (Z.mul_div_le (ru * 32768 + rx / 2) rx ltac:(lia)) as Hq1.
  pose proof (Z.mul_succ_div_gt (ru * 32768 + rx / 2) rx ltac:(lia)) as Hq2.
  fold q in Hq1, Hq2.
  assert (Hql : 32768 <= q).
  { subst q; apply Z.div_le_lower_bound; [lia | nia]. }
  assert (Hqu : q <= ru).
  { assert (q < ru + 1); [ | lia].
    subst q; apply Z.div_lt_upper_bound; [lia | nia]. }
  assert (Hn : 2 * nx <= rx + q + 1 <= 2 * nx + 1)
    by (subst nx; Z.to_euclidean_division_equations; lia).
  split; [lia | split; [lia | split]].
  - pose proof (Z.square_nonneg (2 * (rx - q) - 1)) as Hsq.
    assert (Hlow : 16 * (ru * 32768) <= (2 * rx + 2 * q + 1) * (2 * rx + 2 * q + 1)) by nia.
    assert (Hmono : 2 * rx + 2 * q + 1 <= 4 * nx + 1) by lia.
    nia.
  - intros E. rewrite E in Hn. nia.
Qed.

Lemma Newton_update_from_one (u x : Unit.t) :
  Unit._raw u < 2 ^ 30 -> 32768 <= Unit._raw x <= Unit._raw u ->
  let q := (Unit._raw u * 32768 + Unit._raw x / 2) / Unit._raw x in
  Unit.div u x = Ok (Unit.From q)
  /\ Unit.div (Unit.add x (Unit.From q)) (Unit.of_int 2)
     = Ok (Unit.From ((Unit._raw x + q + 1) / 2)).
Proof.
  intros Hu Hx q.
  destruct (Newton_update_bounds _ _ Hx) as (Hq & _).
  apply Newton_update_raw; unfold I32.in_range, I32.min_signed, I32.max_signed;
    fold q; lia.
Qed.

(** For an input from 1.0 up to, but not including, 32768.0 (raw [ONE] to
    2^30 - 1) [SqrtNewton] returns; the result lies between 1.0 and the
    input; it is at most a quarter of a raw unit below the exact square
    root; and if fewer than ten updates were evaluated it is also at
    most about one raw unit above it. *)
Theorem SqrtNewton_from_one (u : Unit.t) :
  Unit.ONE <= Unit._raw u < 2 ^ 30 ->
  exists r k,
    Unit.SqrtNewton_run u = Ok (r, k)
    /\ Unit.SqrtNewton u = Ok r
    /\ Unit.ONE <= Unit._raw r <= Unit._raw u
    /\ 16 * (Unit._raw u * Unit.ONE) <= (4 * Unit._raw r + 1) * (4 * Unit._raw r + 1)
    /\ ((k < 10)%nat ->
        (Unit._raw r - 1) * (Unit._raw r - 1) <= Unit._raw u * Unit.ONE + 1).
Proof.
  unfold Unit.ONE; intros [Hlo Hhi].
  set (Inv := fun (_ : nat) (x : Unit.t) =>
                32768 <= Unit._raw x <= Unit._raw u
                /\ 16 * (Unit._raw u * 32768) <= (4 * Unit._raw x + 1) * (4 * Unit._raw x + 1)).
  assert (Hstep : forall n x, Inv (S n) x ->
            exists q next, Unit.div u x = Ok q
                           /\ Unit.div (Unit.add x q) (Unit.of_int 2) = Ok next
                           /\ Inv n next).
  { intros n x [Hx _].
    destruct (Newton_update_from_one u x Hhi Hx) as [Hq Hn].
    destruct (Newton_update_bounds _ _ Hx) as (_ & Hnx & Hroot & _).
    eexists; eexists; split; [exact Hq | split; [exact Hn | ]].
    split; cbn [Unit._raw Unit.From]; assumption. }
  assert (Hinit : Inv Unit.MAX_ITER u) by (split; [lia | nia]).
  destruct (SqrtNewton_loop_invariant u Inv (fun _ _ H => H) Hstep Unit.MAX_ITER u 0%nat Hinit)
    as (r & k & E & Hr & Hroot).
  assert (Erun : Unit.SqrtNewton_run u = Ok (r, k)).
  { unfold Unit.SqrtNewton_run.
    destruct (Z.ltb_spec (Unit._raw u) 0); [lia | ].
    destruct (Z.eqb_spec (Unit._raw u) 0); [lia | ].
    rewrite SqrtNewton_guess_above_ONE by (unfold Unit.ONE; lia). exact E. }
  exists r, k; split; [exact Erun | split; [ | split; [exact Hr | split; [exact Hroot | ]]]].
  - unfold Unit.SqrtNewton; rewrite Erun; reflexivity.
  - intros Hk.
    pose proof (SqrtNewton_loop_outcome Unit.MAX_ITER u u 0%nat) as Hout.
    rewrite E in Hout. destruct Hout as (_ & _ & Hfix).
    destruct (Hfix Hk) as (q & Hq & Hn).
    destruct (Newton_update_from_one u r Hhi Hr) as [Hq' Hn'].
    rewrite Hq' in Hq; injection Hq as <-.
    rewrite Hn' in Hn; injection Hn as Hn.
    destruct (Newton_update_bounds _ _ Hr) as (_ & _ & _ & Hup).
    apply Hup. apply (f_equal Unit._raw) in Hn. exact Hn.
Qed.

Lemma SqrtNewton_from_one_two :
  exists r k,
    Unit.SqrtNewton_run (Unit.of_int 2) = Ok (r, k)
    /\ Unit.SqrtNewton (Unit.of_int 2) = Ok r
    /\ Unit.ONE <= Unit._raw r <= 65536
    /\ 16 * (65536 * Unit.ONE) <= (4 * Unit._raw r + 1) * (4 * Unit._raw r + 1)
    /\ ((k < 10)%nat -> (Unit._raw r - 1) * (Unit._raw r - 1) <= 65536 * Unit.ONE + 1).
Proof.
  apply (SqrtNewton_from_one (Unit.of_int 2)); vm_compute; split; [discriminate | reflexivity].
Defined.

(** The update for an input below [ONE] at a value of at least 32.0: the
    quotient is small, and the new value is at least half the old one
    and strictly below it. *)
Lemma Newton_update_below_one (ru rx : Z) :
  0 < ru < 32768 -> 1048576 <= rx <= 1073741824 ->
  let q := (ru * 32768 + rx / 2) / rx in
  let nx := (rx + q + 1) / 2 in
  0 <= q <= 1024 /\ 2 * nx >= rx /\ nx < rx.
Proof.
  intros Hu Hx q nx.
  assert (Hh : 2 * (rx / 2) <= rx <= 2 * (rx / 2) + 1)
    by (Z.to_euclidean_division_equations; lia).
  assert (Hq0 : 0 <= q) by (subst q; apply Z.div_pos; lia).
  assert (Hq1 : q < 1025).
  { subst q; apply Z.div_lt_upper_bound; lia. }
  assert (Hn : 2 * nx <= rx + q + 1 <= 2 * nx + 1)
    by (subst nx; Z.to_euclidean_division_equations; lia).
  lia.
Qed.

(** For an input strictly between 0 and 1.0 the scaled initial guess
    makes [SqrtNewton] evaluate all ten updates and return a value of at
    least 32.0 (raw 2^20), although the square root is below 1.0. *)
Theorem SqrtNewton_below_one (u : Unit.t) :
  0 < Unit._raw u < Unit.ONE ->
  exists r,
    Unit.SqrtNewton_run u = Ok (r, 10%nat)
    /\ Unit.SqrtNewton u = Ok r
    /\ 32 * Unit.ONE <= Unit._raw r <= Unit.ONE * Unit.ONE.
Proof.
  unfold Unit.ONE; intros Hu.
  set (Inv := fun (n : nat) (x : Unit.t) =>
                1048576 * 2 ^ Z.of_nat n <= Unit._raw x <= 1073741824).
  assert (Hpow : forall n, 2 ^ Z.of_nat (S n) = 2 * 2 ^ Z.of_nat n).
  { intros n; rewrite Nat2Z.inj_succ, Z.pow_succ_r by lia; reflexivity. }
  assert (Hpos : forall n, 1 <= 2 ^ Z.of_nat n).
  { intros n; pose proof (Z.pow_pos_nonneg 2 (Z.of_nat n)); lia. }
  assert (Hupd : forall x, 1048576 <= Unit._raw x <= 1073741824 ->
            let q := (Unit._raw u * 32768 + Unit._raw x / 2) / Unit._raw x in
            Unit.div u x = Ok (Unit.From q)
            /\ Unit.div (Unit.add x (Unit.From q)) (Unit.of_int 2)
               = Ok (Unit.From ((Unit._raw x + q + 1) / 2))).
  { intros x Hx q.
    destruct (Newton_update_below_one _ _ Hu Hx) as (Hq & _).
    apply Newton_update_raw; unfold I32.in_range, I32.min_signed, I32.max_signed;
      fold q; lia. }
  assert (Hweak : forall n x, Inv (S n) x -> Inv n x).
  { unfold Inv; intros n x; rewrite Hpow; pose proof (Hpos n); lia. }
  assert (Hstep : forall n x, Inv (S n) x ->
            exists q next, Unit.div u x = Ok q
                           /\ Unit.div (Unit.add x q) (Unit.of_int 2) = Ok next
                           /\ Inv n next).
  { unfold Inv; intros n x; rewrite Hpow; intros Hx.
    assert (Hx' : 1048576 <= Unit._raw x <= 1073741824) by (pose proof (Hpos n); lia).
    destruct (Hupd x Hx') as [Hq Hn].
    destruct (Newton_update_below_one _ _ Hu Hx') as (_ & Hlo & Hhi).
    eexists; eexists; split; [exact Hq | split; [exact Hn | ]].
    cbn [Unit._raw Unit.From]; lia. }
  assert (Hinit : Inv Unit.MAX_ITER (Unit.of_int 32768)) by (vm_compute; split; discriminate).
  destruct (SqrtNewton_loop_invariant u Inv Hweak Hstep Unit.MAX_ITER _ 0%nat Hinit)
    as (r & k & E & Hr).
  unfold Inv in Hr; change (2 ^ Z.of_nat 0) with 1 in Hr.
  assert (Hk : k = 10%nat).
  { pose proof (SqrtNewton_loop_outcome Unit.MAX_ITER u (Unit.of_int 32768) 0%nat) as Hout.
    rewrite E in Hout. destruct Hout as (Hle & _ & Hfix).
    destruct (Nat.eq_dec k 10) as [ | Hne]; [assumption | exfalso].
    destruct Hfix as (q & Hq & Hn); [unfold Unit.MAX_ITER in *; lia | ].
    assert (Hr' : 1048576 <= Unit._raw r <= 1073741824) by lia.
    destruct (Hupd r Hr') as [Hq' Hn'].
    rewrite Hq' in Hq; injection Hq as <-.
    rewrite Hn' in Hn; injection Hn as Hn.
    destruct (Newton_update_below_one _ _ Hu Hr') as (_ & _ & Hlt).
    apply (f_equal Unit._raw) in Hn; cbn [Unit._raw Unit.From] in Hn. lia. }
  subst k.
  assert (Erun : Unit.SqrtNewton_run u = Ok (r, 10%nat)).
  { unfold Unit.SqrtNewton_run, Unit.SqrtNewton_guess, Unit.ONE.
    destruct (Z.ltb_spec (Unit._raw u) 0); [lia | ].
    destruct (Z.eqb_spec (Unit._raw u) 0); [lia | ].
    destruct (Z.geb_spec (Unit._raw u) 32768); [lia | exact E]. }
  exists r; split; [exact Erun | split; [ | lia]].
  unfold Unit.SqrtNewton; rewrite Erun; reflexivity.
Qed.

Lemma SqrtNewton_below_one_half :
  exists r,
    Unit.SqrtNewton_run (Unit.From 16384) = Ok (r, 10%nat)
    /\ Unit.SqrtNewton (Unit.From 16384) = Ok r
    /\ 32 * Unit.ONE <= Unit._raw r <= Unit.ONE * Unit.ONE.
Proof.
  apply (SqrtNewton_below_one (Unit.From 16384)); vm_compute; split; reflexivity.
Defined.

(** Whatever the input, [SqrtNewton] evaluates at most ten updates, at
    least one when the input is positive, and a result reached with fewer
    than ten is a fixed point of the update [x <- (x + u / x) / 2]. *)
Theorem SqrtNewton_iterations (u r : Unit.t) (k : nat) :
  Unit.SqrtNewton_run u = Ok (r, k) ->
  (k <= 10)%nat
  /\ (0 < Unit._raw u ->
      (1 <= k)%nat
      /\ ((k < 10)%nat ->
          exists q, Unit.div u r = Ok q
                    /\ Unit.div (Unit.add r q) (Unit.of_int 2) = Ok r)).
Proof.
  unfold Unit.SqrtNewton_run.
  destruct (Z.ltb_spec (Unit._raw u) 0); [discriminate | ].
  destruct (Z.eqb_spec (Unit._raw u) 0).
  - intros E; injection E as <- <-; split; [lia | intros; lia].
  - intros E.
    pose proof (SqrtNewton_loop_outcome Unit.MAX_ITER u (Unit.SqrtNewton_guess u) 0%nat) as Hout.
    rewrite E in Hout; unfold Unit.MAX_ITER in Hout; destruct Hout as (Hle & Hpos & Hfix).
    split; [lia | intros _; split; [apply Hpos; discriminate | exact Hfix]].
Qed.

Lemma SqrtNewton_iterations_four :
  (5 <= 10)%nat
  /\ (0 < Unit._raw (Unit.of_int 4) ->
      (1 <= 5)%nat
      /\ ((5 < 10)%nat ->
          exists q, Unit.div (Unit.of_int 4) (Unit.of_int 2) = Ok q
                    /\ Unit.div (Unit.add (Unit.of_int 2) q) (Unit.of_int 2)
                       = Ok (Unit.of_int 2))).
Proof.
  apply (SqrtNewton_iterations (Unit.of_int 4) (Unit.of_int 2) 5); vm_compute; reflexivity.
Defined.

(** [SqrtNewton] throws the domain error exactly for a negative raw
    value; the only other exception it can throw is the division by zero
    of its own update, and then the input is positive. *)
Theorem SqrtNewton_throws (u : Unit.t) :
  (Unit.SqrtNewton u = Throw SqrtOfNegative <-> Unit._raw u < 0)
  /\ (forall e, Unit.SqrtNewton u = Throw e ->
        (e = SqrtOfNegative /\ Unit._raw u < 0)
        \/ (e = DivisionByZero /\ 0 < Unit._raw u)).
Proof.
  assert (H : forall e, Unit.SqrtNewton u = Throw e ->
            (e = SqrtOfNegative /\ Unit._raw u < 0)
            \/ (e = DivisionByZero /\ 0 < Unit._raw u)).
  { unfold Unit.SqrtNewton, Unit.SqrtNewton_run; intros e.
    destruct (Z.ltb_spec (Unit._raw u) 0); cbn [bind].
    - intros E; injection E as <-; left; split; [reflexivity | assumption].
    - destruct (Z.eqb_spec (Unit._raw u) 0); cbn [bind]; [discriminate | ].
      pose proof (SqrtNewton_loop_outcome Unit.MAX_ITER u (Unit.SqrtNewton_guess u) 0%nat) as Hout.
      destruct (Unit.SqrtNewton_loop Unit.MAX_ITER u (Unit.SqrtNewton_guess u) 0)
        as [[r k] | e']; cbn [bind]; [discriminate | ].
      intros E; injection E as <-; right; split; [exact Hout | lia]. }
  split; [ | exact H].
  split.
  - intros E; destruct (H _ E) as [[_ Hneg] | [Hd _]]; [exact Hneg | discriminate Hd].
  - intros Hneg; unfold Unit.SqrtNewton, Unit.SqrtNewton_run.
    destruct (Z.ltb_spec (Unit._raw u) 0); [reflexivity | lia].
Qed.

Lemma SqrtNewton_throws_minus_one :
  Unit.SqrtNewton (Unit.of_int (-1)) = Throw SqrtOfNegative.
Proof.
  apply (SqrtNewton_throws (Unit.of_int (-1))); vm_compute; reflexivity.
Defined.

(** ** The 32-bit invariant *)

Lemma SqrtNewton_loop_in_range (n : nat) :
  forall (u x r : Unit.t) (s k : nat),
  I32.in_range (Unit._raw x) ->
  Unit.SqrtNewton_loop n u x s = Ok (r, k) -> I32.in_range (Unit._raw r).
Proof.
  induction n as [ | n IH]; intros u x r s k Hx; cbn [Unit.SqrtNewton_loop].
  - intros E; injection E as <- _; exact Hx.
  - destruct (Unit.div u x) as [q | ]; cbn [bind]; [ | discriminate].
    destruct (Unit.div (Unit.add x q) (Unit.of_int 2)) as [next | ] eqn:En; cbn [bind];
      [ | discriminate].
    destruct (Unit.eq next x).
    + intros E; injection E as <- _; exact Hx.
    + apply IH, (div_in_range _ _ _ En).
Qed.

(** Every operation of the scalar type returns a scalar whose raw value
    is a 32-bit integer: the constructor and the arithmetic operators for
    arbitrary operands, [Min], [Max] and [SqrtNewton] for 32-bit ones. *)
Theorem raw_stays_int32 (a b : Unit.t) (n : Z) :
  I32.in_range (Unit._raw (Unit.of_int n))
  /\ I32.in_range (Unit._raw (Unit.neg a))
  /\ I32.in_range (Unit._raw (Unit.add a b))
  /\ I32.in_range (Unit._raw (Unit.sub a b))
  /\ I32.in_range (Unit._raw (Unit.mul a b))
  /\ (forall q, Unit.div a b = Ok q -> I32.in_range (Unit._raw q))
  /\ (I32.in_range (Unit._raw a) ->
      (forall r, Unit.SqrtNewton a = Ok r -> I32.in_range (Unit._raw r))
      /\ (I32.in_range (Unit._raw b) ->
          I32.in_range (Unit._raw (Min a b)) /\ I32.in_range (Unit._raw (Max a b)))).
Proof.
  repeat (split; [apply I32_wrap_range | ]).
  split; [intros q; apply div_in_range | ].
  intros Ha; split.
  - intros r; unfold Unit.SqrtNewton, Unit.SqrtNewton_run.
    destruct (Unit._raw a <? 0); cbn [bind]; [discriminate | ].
    destruct (Unit._raw a =? 0); cbn [bind].
    + intros E; injection E as <-; apply I32_wrap_range.
    + destruct (Unit.SqrtNewton_loop Unit.MAX_ITER a (Unit.SqrtNewton_guess a) 0)
        as [[r' k] | ] eqn:E; cbn [bind fst]; [ | discriminate].
      intros E'; injection E' as <-.
      apply (SqrtNewton_loop_in_range _ _ _ _ _ _ ) with (2 := E).
      unfold Unit.SqrtNewton_guess.
      destruct (Unit._raw a >=? Unit.ONE); [exact Ha | apply I32_wrap_range].
  - intros Hb; unfold Min, Max.
    destruct (Unit.lt a b), (Unit.gt a b); split; assumption.
Qed.

Lemma raw_stays_int32_sqrt : I32.in_range (Unit._raw (Unit.of_int 2)).
Proof.
  destruct (raw_stays_int32 (Unit.of_int 4) (Unit.of_int 0) 0) as (_ & _ & _ & _ & _ & _ & H).
  destruct H as [H _]; [vm_compute; split; discriminate | ].
  apply (H (Unit.of_int 2)); vm_compute; reflexivity.
Defined.
